(** * OctoDash [AppService]: configuration auto-fix and update check

    A shallow embedding of [src/app/app.service.ts]:
    - the registry [updateError] of configuration patches, keyed by the
      validation error they repair, with [fixUpdateErrors] and
      [hasUpdateError];
    - the version listener and the self-rescheduling [checkUpdate] poll.

    JavaScript values are modelled as trees, objects as finite maps from
    property names to values, exceptions as an explicit completion type, and
    the collaborators (configuration store, IPC channel, HTTP client, timers,
    notification service) as logs of the calls made to them. *)

From Stdlib Require Import PrimFloat ZArith Ascii String.
From Stdlib Require Import DecimalString DecimalZ.
From stdpp Require Import gmap strings list fin_maps.

Set Warnings "-register-all".
Local Open Scope string_scope.
Local Open Scope Z_scope.

(** ** JavaScript values and completions *)

Module Js.

(** The values a configuration tree is made of.  An object carries its
    named properties; an array is an object that also carries elements
    ([elems] is [None] for a plain object). *)
Inductive JsValue : Type :=
  | JsUndefined
  | JsNull
  | JsBoolean (b : bool)
  | JsNumber (x : float)
  | JsString (s : string)
  | JsObject (elems : option (list JsValue)) (props : gmap string JsValue).

(** The only exception the modelled code can raise. *)
Inductive JsError : Type := TypeError.

(** Outcome of evaluating a statement: a value, or a thrown exception. *)
Inductive Completion (A : Type) : Type :=
  | Normal (a : A)
  | Throw (e : JsError).
Arguments Normal {A} a.
Arguments Throw {A} e.

#[global] Instance Completion_ret : MRet Completion := @Normal.
#[global] Instance Completion_bind : MBind Completion :=
  fun A B f c => match c with Normal a => f a | Throw e => Throw e end.

(** [a ?? b] *)
Definition nullish (a b : JsValue) : JsValue :=
  match a with
  | JsUndefined | JsNull => b
  | _ => a
  end.

(** [o.k] read.  [k] is one of the property names written in the service
    ([printer], [plugins], [octodash], [psuControl], ...): none of them is
    an array index, [length], or a member of a built-in prototype, so the
    own named properties decide the result, and a primitive has none. *)
Definition getProp (o : JsValue) (k : string) : Completion JsValue :=
  match o with
  | JsUndefined | JsNull => Throw TypeError
  | JsObject _ props => Normal (default JsUndefined (props !! k))
  | JsBoolean _ | JsNumber _ | JsString _ => Normal JsUndefined
  end.

(** [o.k = v] in strict mode (class bodies are strict): assigning through
    [undefined] or [null] throws, and so does creating a property on a
    primitive.  Returns the object after the assignment. *)
Definition setProp (o : JsValue) (k : string) (v : JsValue) : Completion JsValue :=
  match o with
  | JsObject elems props => Normal (JsObject elems (<[k:=v]> props))
  | JsUndefined | JsNull | JsBoolean _ | JsNumber _ | JsString _ => Throw TypeError
  end.

(** [delete o.k].  Deleting from a primitive does nothing. *)
Definition deleteProp (o : JsValue) (k : string) : Completion JsValue :=
  match o with
  | JsUndefined | JsNull => Throw TypeError
  | JsObject elems props => Normal (JsObject elems (delete k props))
  | JsBoolean _ | JsNumber _ | JsString _ => Normal o
  end.

(** The object [o] after the object its property [k] refers to was mutated
    in place into [child]: the tree is rebuilt along the path, and no
    property is created in [o]. *)
Definition updateChild (o : JsValue) (k : string) (child : JsValue) : JsValue :=
  match o with
  | JsObject elems props => JsObject elems (alter (fun _ => child) k props)
  | _ => o
  end.

(** [o.k1.k2 = v], mutating [o] in place. *)
Definition assignIn (o : JsValue) (k1 k2 : string) (v : JsValue) : Completion JsValue :=
  target ← getProp o k1;
  target' ← setProp target k2 v;
  mret (updateChild o k1 target').

End Js.
Import Js.

(** ** The registry of patches *)

Module Registry.

(** [Config] is a type of [config.model.ts]; a value of that type is a
    JavaScript object tree. *)
Definition Config : Type := JsValue.

(** [(config: Config) => void]: the patch mutates its argument; the model
    returns the mutated configuration, or the exception thrown. *)
Definition Patch : Type := Config -> Completion Config.

Definition key_zBabystepGCode : string :=
  ".printer should have required property 'zBabystepGCode'".
Definition key_tpLinkSmartPlug : string :=
  ".plugins should have required property 'tpLinkSmartPlug'".
Definition key_previewProgressCircle : string :=
  ".octodash should have required property 'previewProgressCircle'".
Definition key_turnOnPrinterWhenExitingSleep : string :=
  ".octodash should have required property 'turnOnPrinterWhenExitingSleep'".

(** [config => (config.printer.zBabystepGCode = 'M290 Z')] *)
Definition patch_zBabystepGCode : Patch := fun config =>
  assignIn config "printer" "zBabystepGCode" (JsString "M290 Z").

(** [{ enabled: true, smartPlugIP: '127.0.0.1' }] *)
Definition tpLinkSmartPlugDefault : JsValue :=
  JsObject None (<["enabled" := JsBoolean true]>
                (<["smartPlugIP" := JsString "127.0.0.1"]> ∅)).

(** [config => (config.plugins.tpLinkSmartPlug = {...})] *)
Definition patch_tpLinkSmartPlug : Patch := fun config =>
  assignIn config "plugins" "tpLinkSmartPlug" tpLinkSmartPlugDefault.

(** [config => (config.octodash.previewProgressCircle = false)] *)
Definition patch_previewProgressCircle : Patch := fun config =>
  assignIn config "octodash" "previewProgressCircle" (JsBoolean false).

(** [[
    config => {
      config.octodash.turnOnPrinterWhenExitingSleep =
        config.plugins.psuControl.turnOnPSUWhenExitingSleep ?? false;
      delete config.plugins.psuControl.turnOnPSUWhenExitingSleep;
    }
    ]] *)
Definition patch_turnOnPrinterWhenExitingSleep : Patch := fun config =>
  octodash ← getProp config "octodash";
  plugins ← getProp config "plugins";
  psuControl ← getProp plugins "psuControl";
  turnOnPSU ← getProp psuControl "turnOnPSUWhenExitingSleep";
  octodash' ← setProp octodash "turnOnPrinterWhenExitingSleep"
                (nullish turnOnPSU (JsBoolean false));
  let config1 := updateChild config "octodash" octodash' in
  plugins1 ← getProp config1 "plugins";
  psuControl1 ← getProp plugins1 "psuControl";
  psuControl' ← deleteProp psuControl1 "turnOnPSUWhenExitingSleep";
  mret (updateChild config1 "plugins" (updateChild plugins1 "psuControl" psuControl')).

(** The object literal assigned to [this.updateError] in the constructor:
    its own properties, in insertion order. *)
Definition updateError : list (string * Patch) :=
  [ (key_zBabystepGCode, patch_zBabystepGCode);
    (key_tpLinkSmartPlug, patch_tpLinkSmartPlug);
    (key_previewProgressCircle, patch_previewProgressCircle);
    (key_turnOnPrinterWhenExitingSleep, patch_turnOnPrinterWhenExitingSleep) ].

(** Own-property lookup [updateError[k]] restricted to own properties. *)
Fixpoint ownProperty (reg : list (string * Patch)) (k : string) : option Patch :=
  match reg with
  | [] => None
  | (k', p) :: reg' => if String.eqb k k' then Some p else ownProperty reg' k
  end.

(** [_.keys(object)]: the own enumerable property names, in insertion
    order (no key of the registry is an integer index). *)
Definition keys (reg : list (string * Patch)) : list string := map fst reg.

End Registry.
Import Registry.

(** ** The auto-fix engine *)

Module AutoFix.

(** What the model leaves open in the JavaScript runtime and in lodash.
    Every theorem below holds for every [Runtime].
    - [resolvesDeep path]: lodash's [hasPath] walk for a [path] that is not
      itself a property name of the registry object and that
      [stringToPath] splits at [.] or brackets (for instance
      [constructor.name]);
    - [keyCoercionThrows v]: whether [ToPropertyKey(v)] throws. *)
Record Runtime : Type := {
  resolvesDeep : string -> bool;
  keyCoercionThrows : JsValue -> bool;
}.

(** How a member of [Object.prototype] behaves when it is invoked as
    [this.updateError[error](config)]. *)
Inductive NativeKind : Type :=
  | IgnoresArgument   (* returns without inspecting or changing [config] *)
  | CoercesArgument   (* converts [config] to a property key first *)
  | RejectsArgument   (* requires a function as second argument *)
  | NotCallable.      (* the property holds an object, not a function *)

(** The properties an object literal inherits from [Object.prototype]. *)
Definition ObjectPrototype : list (string * NativeKind) :=
  [ ("constructor", IgnoresArgument);
    ("toString", IgnoresArgument);
    ("toLocaleString", IgnoresArgument);
    ("valueOf", IgnoresArgument);
    ("isPrototypeOf", IgnoresArgument);
    ("hasOwnProperty", CoercesArgument);
    ("propertyIsEnumerable", CoercesArgument);
    ("__lookupGetter__", CoercesArgument);
    ("__lookupSetter__", CoercesArgument);
    ("__defineGetter__", RejectsArgument);
    ("__defineSetter__", RejectsArgument);
    ("__proto__", NotCallable) ].

Fixpoint inherited (proto : list (string * NativeKind)) (k : string) : option NativeKind :=
  match proto with
  | [] => None
  | (k', n) :: proto' => if String.eqb k k' then Some n else inherited proto' k
  end.

(** What [this.updateError[k]] evaluates to when [k in this.updateError]. *)
Inductive Member : Type :=
  | Registered (patch : Patch)
  | Inherited (kind : NativeKind).

(** [this.updateError[k]]: own properties shadow inherited ones; [None]
    stands for [undefined], which is also the case [!(k in updateError)]. *)
Definition lookupMember (k : string) : option Member :=
  match ownProperty updateError k with
  | Some p => Some (Registered p)
  | None => Inherited <$> inherited ObjectPrototype k
  end.

(** [member(config)] with [this = updateError]. *)
Definition callMember (rt : Runtime) (m : Member) (config : Config) : Completion Config :=
  match m with
  | Registered patch => patch config
  | Inherited IgnoresArgument => Normal config
  | Inherited CoercesArgument =>
      if keyCoercionThrows rt config then Throw TypeError else Normal config
  | Inherited RejectsArgument => Throw TypeError
  | Inherited NotCallable => Throw TypeError
  end.

Definition isSeparator (c : ascii) : bool :=
  (Ascii.eqb c "." || Ascii.eqb c "[" || Ascii.eqb c "]")%char.

(** The longest prefix free of [.], [[] and []]: the first match of
    lodash's [rePropName] alternative [[^.[\]]+] at position 0. *)
Fixpoint untilSeparator (s : string) : string :=
  match s with
  | EmptyString => EmptyString
  | String c s' => if isSeparator c then EmptyString else String c (untilSeparator s')
  end.

(** First key of [stringToPath(path)] where the model determines it: the
    empty key for a leading dot, the separator-free prefix otherwise;
    bracket notation at the start is left to [resolvesDeep]. *)
Definition headKey (path : string) : option string :=
  match path with
  | EmptyString => Some EmptyString
  | String c _ =>
      if Ascii.eqb c "."%char then Some EmptyString
      else if isSeparator c then None
      else Some (untilSeparator path)
  end.

(** [_.hasIn(this.updateError, path)]: [path] is taken as one key when it
    is a direct or inherited property name of the object; otherwise it is
    split, and the walk fails at once unless its first key is such a
    property. *)
Definition hasIn (rt : Runtime) (path : string) : bool :=
  match lookupMember path with
  | Some _ => true
  | None =>
      match headKey path with
      | Some k => bool_decide (is_Some (lookupMember k)) && resolvesDeep rt path
      | None => resolvesDeep rt path
      end
  end.

(** The loop of [fixUpdateErrors], threading the borrowed configuration
    and the flag [fullyAutofixed]. *)
Fixpoint forErrors (rt : Runtime) (errors : list string)
    (config : Config) (fullyAutofixed : bool) : Completion (Config * bool) :=
  match errors with
  | [] => Normal (config, fullyAutofixed)
  | error :: rest =>
      if hasIn rt error then
        match lookupMember error with
        | Some m =>
            config' ← callMember rt m config;
            forErrors rt rest config' fullyAutofixed
        | None => Throw TypeError   (* [undefined] is not a function *)
        end
      else forErrors rt rest config false
  end.

(** The calls of [getCurrentConfig] and [saveConfig] made to
    [ConfigService].  Its getters [getFilamentThickness] and
    [getFilamentDensity], which only the filament converters call, are not
    part of this log. *)
Inductive StoreCall : Type :=
  | GetCurrentConfig
  | SaveConfig (config : Config).

Record Run : Type := {
  completion : Completion bool;
  storeCalls : list StoreCall;
}.

(** [fixUpdateErrors(errors)], where [current] is the object that
    [this.configService.getCurrentConfig()] returns. *)
Definition fixUpdateErrors (rt : Runtime) (current : Config) (errors : list string) : Run :=
  match forErrors rt errors current true with
  | Normal (config, fullyAutofixed) =>
      {| completion := Normal fullyAutofixed;
         storeCalls := [GetCurrentConfig; SaveConfig config] |}
  | Throw e =>
      {| completion := Throw e; storeCalls := [GetCurrentConfig] |}
  end.

(** [includes] of lodash on strings (SameValueZero is string equality). *)
Definition includes (array : list string) (value : string) : bool :=
  existsb (String.eqb value) array.

(** [_.intersection(array, other)]: the values of [array] found in
    [other], each kept once, in the order of [array]. *)
Fixpoint baseIntersection (array other result : list string) : list string :=
  match array with
  | [] => result
  | value :: array' =>
      if negb (includes result value) && includes other value
      then baseIntersection array' other (result ++ [value])
      else baseIntersection array' other result
  end.

Definition intersection (array other : list string) : list string :=
  baseIntersection array other [].

(** [hasUpdateError(errors)] *)
Definition hasUpdateError (errors : list string) : bool :=
  Nat.ltb 0 (length (intersection errors (keys updateError))).

End AutoFix.
Import AutoFix.

(** ** The service: version listener, update poll, and the other methods *)

Module Service.

(** [String.prototype.replace(pattern, replacement)] for a string
    [pattern]: only the first occurrence, searched from the left, is
    replaced.  (The service passes the empty replacement, which contains
    no [$] pattern.) *)
Fixpoint replace (pattern replacement s : string) : string :=
  if String.prefix pattern s
  then replacement +:+ String.substring (String.length pattern)
                         (String.length s - String.length pattern) s
  else match s with
       | EmptyString => EmptyString
       | String c s' => String c (replace pattern replacement s')
       end.

(** [interface VersionInformation] *)
Record VersionInformation : Type := { info_version : string }.

(** [interface GitHubReleaseInformation]; the other fields of the response
    are not read. *)
Record GitHubReleaseInformation : Type := {
  name : string;
  assets_url : string;
}.

(** The fields of [AppService]; [None] is [undefined], the value of a
    declared field that was never assigned. *)
Record AppService : Type := {
  loadedFile : bool;
  version : option string;
  latestVersion : option string;
  latestVersionAssetsURL : option string;
  updateAvailable : bool;
}.

(** The service together with its collaborators, each as the log of what
    the service asked of it. *)
Record World : Type := {
  svc : AppService;
  clock : Z;                              (* milliseconds *)
  timers : list Z;                        (* due times of [setTimeout(checkUpdate)] *)
  requests : nat;                         (* GET requests in flight *)
  ipcSent : list string;                  (* [ipcRenderer.send] channels *)
  notifications : list (string * string); (* [notificationService.setError] *)
  styles : list string;                   (* style elements appended to the head *)
  store : list StoreCall;                 (* [getCurrentConfig], [saveConfig] *)
}.

Definition withSvc (f : AppService -> AppService) (w : World) : World :=
  {| svc := f (svc w); clock := clock w; timers := timers w;
     requests := requests w; ipcSent := ipcSent w;
     notifications := notifications w; styles := styles w; store := store w |}.

(** [this.x !== s] for a field that is a string or still [undefined]. *)
Definition strictNeq (field : option string) (s : string) : bool :=
  match field with
  | Some x => negb (String.eqb x s)
  | None => true
  end.

(** The [next] callback passed to [subscribe] in [checkUpdate]. *)
Definition onNext (data : GitHubReleaseInformation) (a : AppService) : AppService :=
  let a1 :=
    if strictNeq (version a) (replace "v" "" (name data))
    then {| loadedFile := loadedFile a; version := version a;
            latestVersion := latestVersion a;
            latestVersionAssetsURL := latestVersionAssetsURL a;
            updateAvailable := true |}
    else a in
  {| loadedFile := loadedFile a1; version := version a1;
     latestVersion := Some (replace "v" "" (name data));
     latestVersionAssetsURL := Some (assets_url data);
     updateAvailable := updateAvailable a1 |}.

(** The [error] callback: [(): void => null]. *)
Definition onError (a : AppService) : AppService := a.

(** [checkUpdate()]: subscribes to the GET request, which puts one request
    in flight, and arms one timer. *)
Definition checkUpdate (w : World) : World :=
  {| svc := svc w; clock := clock w;
     timers := timers w ++ [clock w + 3600000];
     requests := S (requests w); ipcSent := ipcSent w;
     notifications := notifications w; styles := styles w; store := store w |}.

(** The listener installed by [enableVersionListener]. *)
Definition onVersionInformation (versionInformation : VersionInformation) (w : World) : World :=
  checkUpdate
    (withSvc (fun a =>
       {| loadedFile := loadedFile a;
          version := Some (info_version versionInformation);
          latestVersion := latestVersion a;
          latestVersionAssetsURL := latestVersionAssetsURL a;
          updateAvailable := updateAvailable a |}) w).

(** The listeners installed by [enableCustomCSSListener]. *)
Definition onCustomStyles (customCSS : string) (w : World) : World :=
  {| svc := svc w; clock := clock w; timers := timers w;
     requests := requests w; ipcSent := ipcSent w;
     notifications := notifications w; styles := styles w ++ [customCSS];
     store := store w |}.

Definition onCustomStylesError (customCSSError : string) (w : World) : World :=
  {| svc := svc w; clock := clock w; timers := timers w;
     requests := requests w; ipcSent := ipcSent w;
     notifications := notifications w ++ [("Can't load custom styles!", customCSSError)];
     styles := styles w; store := store w |}.

Definition send (channel : string) (w : World) : World :=
  {| svc := svc w; clock := clock w; timers := timers w;
     requests := requests w; ipcSent := ipcSent w ++ [channel];
     notifications := notifications w; styles := styles w; store := store w |}.

Definition turnDisplayOff : World -> World := send "screenSleep".
Definition turnDisplayOn : World -> World := send "screenWakeup".

Definition setLoadedFile (value : bool) : World -> World :=
  withSvc (fun a =>
    {| loadedFile := value; version := version a;
       latestVersion := latestVersion a;
       latestVersionAssetsURL := latestVersionAssetsURL a;
       updateAvailable := updateAvailable a |}).

Definition getVersion (a : AppService) : option string := version a.
Definition getLatestVersion (a : AppService) : option string := latestVersion a.
Definition getLatestVersionAssetsURL (a : AppService) : option string :=
  latestVersionAssetsURL a.
Definition getLoadedFile (a : AppService) : bool := loadedFile a.

(** [fixUpdateErrors] as a method of the service: it touches the store
    only. *)
Definition callFixUpdateErrors (rt : Runtime) (current : Config)
    (errors : list string) (w : World) : World :=
  {| svc := svc w; clock := clock w; timers := timers w;
     requests := requests w; ipcSent := ipcSent w;
     notifications := notifications w; styles := styles w;
     store := store w ++ storeCalls (fixUpdateErrors rt current errors) |}.

(** The world right after the constructor ran at time [now]: the field
    initialisers, the two listener registrations and
    [ipcRenderer.send('appInfo')]. *)
Definition construct (now : Z) : World :=
  {| svc := {| loadedFile := false; version := None; latestVersion := None;
               latestVersionAssetsURL := None; updateAvailable := false |};
     clock := now; timers := []; requests := 0%nat; ipcSent := ["appInfo"];
     notifications := []; styles := []; store := [] |}.

(** What can happen to the service after construction, as far as it
    changes a field of the service or one of the logs of [World].  The
    getters and the converters change none of them and are no events;
    among the converters, [convertFilamentLengthToWeight] and
    [convertFilamentVolumeToWeight] do reach the configuration service,
    through [getFilamentThickness] and [getFilamentDensity], which [World]
    does not record. *)
Inductive Event : Type :=
  | IpcVersionInformation (versionInformation : VersionInformation)
  | IpcCustomStyles (customCSS : string)
  | IpcCustomStylesError (customCSSError : string)
  | HttpNext (data : GitHubReleaseInformation)   (* a request in flight succeeds *)
  | HttpError                                    (* a request in flight fails *)
  | Elapse (ms : Z)                              (* time passes *)
  | TimerFires                                   (* the oldest due timer runs *)
  | CallFixUpdateErrors (current : Config) (errors : list string)
  | CallSetLoadedFile (value : bool)
  | CallTurnDisplayOff
  | CallTurnDisplayOn.

(** One turn of the event loop; [None] when the event cannot happen in
    [w] (no request in flight, no timer due, time running backwards). *)
Definition step (rt : Runtime) (ev : Event) (w : World) : option World :=
  match ev with
  | IpcVersionInformation versionInformation =>
      Some (onVersionInformation versionInformation w)
  | IpcCustomStyles customCSS => Some (onCustomStyles customCSS w)
  | IpcCustomStylesError customCSSError => Some (onCustomStylesError customCSSError w)
  | HttpNext data =>
      match requests w with
      | O => None
      | S n =>
          Some {| svc := onNext data (svc w); clock := clock w; timers := timers w;
                  requests := n; ipcSent := ipcSent w;
                  notifications := notifications w; styles := styles w;
                  store := store w |}
      end
  | HttpError =>
      match requests w with
      | O => None
      | S n =>
          Some {| svc := onError (svc w); clock := clock w; timers := timers w;
                  requests := n; ipcSent := ipcSent w;
                  notifications := notifications w; styles := styles w;
                  store := store w |}
      end
  | Elapse ms =>
      if 0 <=? ms
      then Some {| svc := svc w; clock := clock w + ms; timers := timers w;
                   requests := requests w; ipcSent := ipcSent w;
                   notifications := notifications w; styles := styles w;
                   store := store w |}
      else None
  | TimerFires =>
      match timers w with
      | due :: rest =>
          if due <=? clock w
          then Some (checkUpdate
                 {| svc := svc w; clock := clock w; timers := rest;
                    requests := requests w; ipcSent := ipcSent w;
                    notifications := notifications w; styles := styles w;
                    store := store w |})
          else None
      | [] => None
      end
  | CallFixUpdateErrors current errors => Some (callFixUpdateErrors rt current errors w)
  | CallSetLoadedFile value => Some (setLoadedFile value w)
  | CallTurnDisplayOff => Some (turnDisplayOff w)
  | CallTurnDisplayOn => Some (turnDisplayOn w)
  end.

(** A sequence of turns. *)
Fixpoint run (rt : Runtime) (evs : list Event) (w : World) : option World :=
  match evs with
  | [] => Some w
  | ev :: evs' =>
      match step rt ev w with
      | Some w' => run rt evs' w'
      | None => None
      end
  end.

(** While a request is in flight, a timer is armed. *)
Definition armed (w : World) : Prop := timers w = [] -> requests w = 0%nat.

End Service.
Import Service.

(** ** Concrete configurations, runtimes and event sequences *)

Module Samples.

(** A configuration whose three sections exist and are empty. *)
Definition emptyConfig : Config :=
  JsObject None (<["printer" := JsObject None ∅]>
                (<["plugins" := JsObject None ∅]>
                (<["octodash" := JsObject None ∅]> ∅))).

(** [{ plugins: { psuControl: { turnOnPSUWhenExitingSleep: true } },
       octodash: {} }] *)
Definition psuOnConfig : Config :=
  JsObject None
    (<["plugins" :=
         JsObject None
           (<["psuControl" :=
                JsObject None (<["turnOnPSUWhenExitingSleep" := JsBoolean true]> ∅)]> ∅)]>
    (<["octodash" := JsObject None ∅]> ∅)).

(** The same with the source field set to [false]. *)
Definition psuOffConfig : Config :=
  JsObject None
    (<["plugins" :=
         JsObject None
           (<["psuControl" :=
                JsObject None (<["turnOnPSUWhenExitingSleep" := JsBoolean false]> ∅)]> ∅)]>
    (<["octodash" := JsObject None ∅]> ∅)).

(** [psuOffConfig] after the patch for [turnOnPrinterWhenExitingSleep]. *)
Definition psuOffFixed : Config :=
  JsObject None
    (<["plugins" := JsObject None (<["psuControl" := JsObject None ∅]> ∅)]>
    (<["octodash" :=
         JsObject None (<["turnOnPrinterWhenExitingSleep" := JsBoolean false]> ∅)]> ∅)).

(** [config.octodash.turnOnPrinterWhenExitingSleep] *)
Definition readTurnOnPrinter (config : Config) : Completion JsValue :=
  octodash ← getProp config "octodash";
  getProp octodash "turnOnPrinterWhenExitingSleep".

(** [config.octodash.previewProgressCircle] *)
Definition readPreviewProgressCircle (config : Config) : Completion JsValue :=
  octodash ← getProp config "octodash";
  getProp octodash "previewProgressCircle".

(** [config.plugins.tpLinkSmartPlug] *)
Definition readTpLinkSmartPlug (config : Config) : Completion JsValue :=
  plugins ← getProp config "plugins";
  getProp plugins "tpLinkSmartPlug".

(** [config.printer.zBabystepGCode] *)
Definition readZBabystepGCode (config : Config) : Completion JsValue :=
  printer ← getProp config "printer";
  getProp printer "zBabystepGCode".

(** A runtime in which no deep path resolves and key coercion succeeds. *)
Definition plainRuntime : Runtime :=
  {| resolvesDeep := fun _ => false; keyCoercionThrows := fun _ => false |}.

(** The patches of the registered identifiers of a batch, in order. *)
Fixpoint applyRegistered (errors : list string) (config : Config) : Completion Config :=
  match errors with
  | [] => Normal config
  | error :: rest =>
      match ownProperty updateError error with
      | Some patch => config' ← patch config; applyRegistered rest config'
      | None => applyRegistered rest config
      end
  end.

(** Whether the character [c] occurs in [s]. *)
Fixpoint occurs (c : ascii) (s : string) : bool :=
  match s with
  | EmptyString => false
  | String c' s' => Ascii.eqb c' c || occurs c s'
  end.

Definition release (n url : string) : GitHubReleaseInformation :=
  {| name := n; assets_url := url |}.

(** Version 1.2.0 is announced, release v1.3.0 is polled, and an hour
    later the latest release is v1.2.0. *)
Definition withdrawnRelease : list Event :=
  [ IpcVersionInformation {| info_version := "1.2.0" |};
    HttpNext (release "v1.3.0" "https://x");
    Elapse 3600000;
    TimerFires;
    HttpNext (release "v1.2.0" "https://y") ].

(** The running version and the polled release carry the same name, which
    has a [v] that is not in front. *)
Definition devRelease : list Event :=
  [ IpcVersionInformation {| info_version := "1.0-dev" |};
    HttpNext (release "1.0-dev" "https://x") ].

(** The running version is announced with the prefix the release has. *)
Definition prefixedVersion : list Event :=
  [ IpcVersionInformation {| info_version := "v1.2.0" |};
    HttpNext (release "v1.2.0" "https://x") ].

(** A poll fails right after the version was announced. *)
Definition failedPoll : list Event :=
  [ IpcVersionInformation {| info_version := "1.2.0" |} ].

(** The world that a sequence of events leads to from the constructor run
    at time 0 (the constructed world itself when the sequence cannot
    happen). *)
Definition after (evs : list Event) : World :=
  default (construct 0) (run plainRuntime evs (construct 0)).

(** The first poll fails and an hour passes. *)
Definition timerDue : list Event :=
  [ IpcVersionInformation {| info_version := "1.2.0" |};
    HttpError;
    Elapse 3600000 ].

End Samples.
Import Samples.

(** ** Paths into a configuration, and what the patches amount to *)

Module Paths.

(** [config.k1.k2...]: the property reads along [path], left to right. *)
Fixpoint readPath (path : list string) (o : JsValue) : Completion JsValue :=
  match path with
  | [] => Normal o
  | k :: rest => child ← getProp o k; readPath rest child
  end.

(** Whether two paths part ways: at some position both have a key and the
    keys differ (neither path leads to, or through, the other's target). *)
Fixpoint diverges (p q : list string) : bool :=
  match p, q with
  | x :: p', y :: q' => if String.eqb x y then diverges p' q' else true
  | _, _ => false
  end.

(** The fields the four patches write or delete. *)
Definition path_zBabystepGCode : list string := ["printer"; "zBabystepGCode"].
Definition path_tpLinkSmartPlug : list string := ["plugins"; "tpLinkSmartPlug"].
Definition path_previewProgressCircle : list string :=
  ["octodash"; "previewProgressCircle"].
Definition path_turnOnPrinter : list string :=
  ["octodash"; "turnOnPrinterWhenExitingSleep"].
Definition path_turnOnPSU : list string :=
  ["plugins"; "psuControl"; "turnOnPSUWhenExitingSleep"].

(** The field that the patch of a registry key writes. *)
Definition fieldOf (error : string) : list string :=
  if String.eqb error key_zBabystepGCode then path_zBabystepGCode
  else if String.eqb error key_tpLinkSmartPlug then path_tpLinkSmartPlug
  else if String.eqb error key_previewProgressCircle then path_previewProgressCircle
  else path_turnOnPrinter.

Definition touched : list (list string) :=
  [ path_zBabystepGCode; path_tpLinkSmartPlug; path_previewProgressCircle;
    path_turnOnPrinter; path_turnOnPSU ].

Definition isObject (v : JsValue) : bool :=
  match v with JsObject _ _ => true | _ => false end.

Definition isNullish (v : JsValue) : bool :=
  match v with JsUndefined | JsNull => true | _ => false end.

Definition completes {A} (c : Completion A) : bool :=
  match c with Normal _ => true | Throw _ => false end.

(** Whether the read along [path] completes with a value satisfying [test]. *)
Definition reads (test : JsValue -> bool) (path : list string) (o : JsValue) : bool :=
  match readPath path o with
  | Normal v => test v
  | Throw _ => false
  end.

(** What the field named by a registry key holds once the key's patch has
    run: the constant of the first three patches; for the fourth some value
    other than [undefined] and [null]. *)
Definition repaired (error : string) (config : Config) : bool :=
  if String.eqb error key_zBabystepGCode then
    reads (fun v => match v with JsString s => String.eqb s "M290 Z" | _ => false end)
          path_zBabystepGCode config
  else if String.eqb error key_tpLinkSmartPlug then
    reads (fun v => isObject v
                    && reads (fun e => match e with JsBoolean b => b | _ => false end)
                             ["enabled"] v
                    && reads (fun e => match e with
                                       | JsString s => String.eqb s "127.0.0.1"
                                       | _ => false
                                       end)
                             ["smartPlugIP"] v)
          path_tpLinkSmartPlug config
  else if String.eqb error key_previewProgressCircle then
    reads (fun v => match v with JsBoolean b => negb b | _ => false end)
          path_previewProgressCircle config
  else if String.eqb error key_turnOnPrinterWhenExitingSleep then
    reads (fun v => negb (isNullish v)) path_turnOnPrinter config
  else true.

(** [psuControl.turnOnPSUWhenExitingSleep] for a [psuControl] that is
    neither [undefined] nor [null]. *)
Definition sourceOf (psuControl : JsValue) : JsValue :=
  match psuControl with
  | JsObject _ m => default JsUndefined (m !! "turnOnPSUWhenExitingSleep")
  | _ => JsUndefined
  end.

(** [psuControl] after [delete psuControl.turnOnPSUWhenExitingSleep]. *)
Definition withoutSource (psuControl : JsValue) : JsValue :=
  match psuControl with
  | JsObject e m => JsObject e (delete "turnOnPSUWhenExitingSleep" m)
  | _ => psuControl
  end.

(** The fourth patch in one piece: it needs [octodash] and [plugins] to be
    objects and [plugins.psuControl] to be present and not [null]. *)
Definition migrateTurnOn (config : Config) : Completion Config :=
  match config with
  | JsObject el props =>
      match props !! "octodash", props !! "plugins" with
      | Some (JsObject eo mo), Some (JsObject ep mp) =>
          match mp !! "psuControl" with
          | Some psuControl =>
              if isNullish psuControl then Throw TypeError
              else Normal
                (JsObject el
                   (<["plugins" :=
                        JsObject ep (<["psuControl" := withoutSource psuControl]> mp)]>
                   (<["octodash" :=
                        JsObject eo
                          (<["turnOnPrinterWhenExitingSleep" :=
                               nullish (sourceOf psuControl) (JsBoolean false)]> mo)]>
                    props)))
          | None => Throw TypeError
          end
      | _, _ => Throw TypeError
      end
  | _ => Throw TypeError
  end.

(** An identifier as the validator writes it: the data path, which is empty
    or starts with a dot, then a space and the message. *)
Definition validatorForm (error : string) : bool :=
  match error with
  | String c _ => (Ascii.eqb c "." || Ascii.eqb c " ")%char
  | EmptyString => false
  end.

(** The outcome of [fixUpdateErrors] in terms of the registered patches of
    the batch alone. *)
Definition outcomeOf (errors : list string) (current : Config) : Run :=
  match applyRegistered errors current with
  | Normal config' =>
      {| completion := Normal (forallb (includes (keys updateError)) errors);
         storeCalls := [GetCurrentConfig; SaveConfig config'] |}
  | Throw e => {| completion := Throw e; storeCalls := [GetCurrentConfig] |}
  end.

(** A batch of the validator's form: one unknown identifier, two known. *)
Definition mixedBatch : list string :=
  [ ".octodash should have required property 'invertAxisControl'";
    key_previewProgressCircle;
    key_zBabystepGCode ].

(** [emptyConfig] after the two known patches of [mixedBatch]. *)
Definition mixedBatchFixed : Config :=
  JsObject None
    (<["printer" := JsObject None (<["zBabystepGCode" := JsString "M290 Z"]> ∅)]>
    (<["plugins" := JsObject None ∅]>
    (<["octodash" :=
         JsObject None (<["previewProgressCircle" := JsBoolean false]> ∅)]> ∅))).

(** A batch of unknown identifiers. *)
Definition unknownBatch : list string :=
  [ ".octodash should have required property 'invertAxisControl'";
    " should have required property 'filament'" ].

(** A configuration with settings of its own, in need of all four
    patches. *)
Definition usedConfig : Config :=
  JsObject None
    (<["printer" := JsObject None (<["name" := JsString "Ender 3"]> ∅)]>
    (<["plugins" :=
         JsObject None
           (<["psuControl" :=
                JsObject None
                  (<["turnOnPSUWhenExitingSleep" := JsBoolean true]>
                  (<["plugin" := JsString "psucontrol"]> ∅))]> ∅)]>
    (<["octodash" := JsObject None (<["pollingInterval" := JsString "2000"]> ∅)]> ∅))).

(** [usedConfig] after the four patches. *)
Definition usedConfigFixed : Config :=
  JsObject None
    (<["printer" :=
         JsObject None
           (<["name" := JsString "Ender 3"]>
           (<["zBabystepGCode" := JsString "M290 Z"]> ∅))]>
    (<["plugins" :=
         JsObject None
           (<["psuControl" :=
                JsObject None (<["plugin" := JsString "psucontrol"]> ∅)]>
           (<["tpLinkSmartPlug" := tpLinkSmartPlugDefault]> ∅))]>
    (<["octodash" :=
         JsObject None
           (<["pollingInterval" := JsString "2000"]>
           (<["previewProgressCircle" := JsBoolean false]>
           (<["turnOnPrinterWhenExitingSleep" := JsBoolean true]> ∅)))]> ∅))).

(** [psuOnConfig] after the fourth patch. *)
Definition psuOnFixed : Config :=
  JsObject None
    (<["plugins" := JsObject None (<["psuControl" := JsObject None ∅]> ∅)]>
    (<["octodash" :=
         JsObject None (<["turnOnPrinterWhenExitingSleep" := JsBoolean true]> ∅)]> ∅)).

End Paths.
Import Paths.

(** ** What a sequence of events did, read off the events alone *)

Module History.

(** The version of the last [versionInformation] event, if any. *)
Fixpoint lastAnnounced (evs : list Event) (before : option string) : option string :=
  match evs with
  | [] => before
  | IpcVersionInformation versionInformation :: evs' =>
      lastAnnounced evs' (Some (info_version versionInformation))
  | _ :: evs' => lastAnnounced evs' before
  end.

(** The release delivered by the last successful poll, if any. *)
Fixpoint lastRelease (evs : list Event) (before : option GitHubReleaseInformation)
    : option GitHubReleaseInformation :=
  match evs with
  | [] => before
  | HttpNext data :: evs' => lastRelease evs' (Some data)
  | _ :: evs' => lastRelease evs' before
  end.

(** The argument of the last [setLoadedFile] call, if any. *)
Fixpoint lastLoadedFile (evs : list Event) (before : bool) : bool :=
  match evs with
  | [] => before
  | CallSetLoadedFile value :: evs' => lastLoadedFile evs' value
  | _ :: evs' => lastLoadedFile evs' before
  end.

Definition isAnnouncement (ev : Event) : bool :=
  match ev with IpcVersionInformation _ => true | _ => false end.

Definition isTimerFiring (ev : Event) : bool :=
  match ev with TimerFires => true | _ => false end.

(** How many [versionInformation] events there were. *)
Definition announcements (evs : list Event) : nat :=
  length (List.filter isAnnouncement evs).

(** How many times [checkUpdate] was invoked: once per announcement and
    once per timer that fired. *)
Definition polls (evs : list Event) : nat :=
  length (List.filter (fun ev => isAnnouncement ev || isTimerFiring ev) evs).

(** The payloads of the [customStyles] events, in order. *)
Definition customStyles (evs : list Event) : list string :=
  omap (fun ev => match ev with IpcCustomStyles css => Some css | _ => None end) evs.

(** The payloads of the [customStylesError] events, in order. *)
Definition customStylesErrors (evs : list Event) : list string :=
  omap (fun ev => match ev with IpcCustomStylesError e => Some e | _ => None end) evs.

(** The channels of the display calls, in order. *)
Definition displayCommands (evs : list Event) : list string :=
  omap (fun ev => match ev with
                  | CallTurnDisplayOff => Some "screenSleep"
                  | CallTurnDisplayOn => Some "screenWakeup"
                  | _ => None
                  end) evs.

(** How many times [fixUpdateErrors] was called. *)
Definition fixCalls (evs : list Event) : nat :=
  length (List.filter (fun ev => match ev with
                                 | CallFixUpdateErrors _ _ => true
                                 | _ => false
                                 end) evs).

Definition isGet (c : StoreCall) : bool :=
  match c with GetCurrentConfig => true | SaveConfig _ => false end.

(** The [getCurrentConfig] calls and the [saveConfig] calls in a log. *)
Definition gets (log : list StoreCall) : nat :=
  length (List.filter isGet log).
Definition saves (log : list StoreCall) : nat :=
  length (List.filter (fun c => negb (isGet c)) log).

(** Due times in the order of the list. *)
Fixpoint ascending (l : list Z) : Prop :=
  match l with
  | [] => True
  | x :: l' => Forall (fun y => x <= y) l' /\ ascending l'
  end.

(** Nothing is polled, scheduled or known before the version is. *)
Definition quiet (w : World) : Prop :=
  version (svc w) = None ->
  requests w = 0%nat /\ timers w = [] /\ latestVersion (svc w) = None
  /\ latestVersionAssetsURL (svc w) = None /\ updateAvailable (svc w) = false.

(** The release fields are set together, and the flag only after them. *)
Definition coherent (a : AppService) : Prop :=
  (latestVersion a = None <-> latestVersionAssetsURL a = None)
  /\ (updateAvailable a = true -> latestVersion a <> None).

(** The pending timers are in due order and none is due later than one
    hour from now. *)
Definition scheduled (w : World) : Prop :=
  ascending (timers w) /\ Forall (fun due => due <= clock w + 3600000) (timers w).

(** The pace of a single polling loop started after [t0]: after [k] polls
    the one pending timer is due no earlier than [k] hours after [t0], and
    [k - 1] hours have passed. *)
Definition paced (t0 : Z) (k a : nat) (w : World) : Prop :=
  t0 <= clock w
  /\ match a with
     | O => k = O /\ timers w = []
     | S _ =>
         exists due,
           timers w = [due]
           /\ t0 + Z.of_nat k * 3600000 <= due
           /\ t0 + (Z.of_nat k - 1) * 3600000 <= clock w
     end.

(** A session that exercises every kind of event. *)
Definition busySession : list Event :=
  [ IpcCustomStyles "body { color: red }";
    CallSetLoadedFile true;
    IpcVersionInformation {| info_version := "2.1.0" |};
    HttpError;
    CallTurnDisplayOff;
    Elapse 3600000;
    TimerFires;
    HttpNext (release "v2.2.0" "https://api.github.com/assets/1");
    IpcCustomStylesError "ENOENT";
    CallFixUpdateErrors emptyConfig [key_zBabystepGCode];
    CallTurnDisplayOn;
    Elapse 3700000;
    TimerFires;
    HttpNext (release "v2.3.0" "https://api.github.com/assets/2");
    CallSetLoadedFile false ].

(** Events before any version was announced. *)
Definition beforeAnnouncement : list Event :=
  [ IpcCustomStyles "body { color: red }";
    CallTurnDisplayOff;
    Elapse 5000;
    CallFixUpdateErrors emptyConfig [key_zBabystepGCode] ].

End History.
Import History.

(** ** Dates *)

Module Dates.

(** A Number that is an integer or [NaN] ([None]): what the getters of a
    [Date] return. *)
Definition IntOrNaN : Type := option Z.

(** The local-time fields of a valid [Date], as its getters return them. *)
Record LocalTime : Type := {
  day : Z;          (* getDate(): 1..31 *)
  month : Z;        (* getMonth(): 0..11 *)
  fullYear : Z;     (* getFullYear() *)
  hours : Z;        (* getHours(): 0..23 *)
  minutes : Z;      (* getMinutes(): 0..59 *)
  seconds : Z;      (* getSeconds(): 0..59 *)
}.

(** A [Date] holds a time value or [NaN]; of a valid one the model keeps
    the local-time fields. *)
Inductive JsDate : Type :=
  | InvalidDate
  | ValidDate (fields : LocalTime).

(** The ranges the getters of a valid [Date] keep. *)
Definition inRange (t : LocalTime) : Prop :=
  1 <= day t <= 31 /\ 0 <= month t <= 11
  /\ 0 <= hours t <= 23 /\ 0 <= minutes t <= 59 /\ 0 <= seconds t <= 59.

Definition getter (f : LocalTime -> Z) (date : JsDate) : IntOrNaN :=
  match date with
  | InvalidDate => None
  | ValidDate t => Some (f t)
  end.

Definition getDate : JsDate -> IntOrNaN := getter day.
Definition getMonth : JsDate -> IntOrNaN := getter month.
Definition getFullYear : JsDate -> IntOrNaN := getter fullYear.
Definition getHours : JsDate -> IntOrNaN := getter hours.
Definition getMinutes : JsDate -> IntOrNaN := getter minutes.
Definition getSeconds : JsDate -> IntOrNaN := getter seconds.

(** [n + 1] *)
Definition plusOne (n : IntOrNaN) : IntOrNaN := (fun z => z + 1) <$> n.

(** [ToString] of an integer Number below 10^21 in magnitude, or of
    [NaN]. *)
Definition numberToString (n : IntOrNaN) : string :=
  match n with
  | None => "NaN"
  | Some z => NilZero.string_of_int (Z.to_int z)
  end.

(** [s.slice(start)]: from [start], counted from the end when negative,
    to the end of the string. *)
Definition slice (start : Z) (s : string) : string :=
  let len := Z.of_nat (String.length s) in
  let from := if start <? 0 then Z.max (len + start) 0 else Z.min start len in
  String.substring (Z.to_nat from) (Z.to_nat (len - from)) s.

(** [('0' + n).slice(-2)] *)
Definition pad2 (n : IntOrNaN) : string := slice (-2) ("0" +:+ numberToString n).

(** [convertDateToString(date)] *)
Definition convertDateToString (date : JsDate) : string :=
  pad2 (getDate date) +:+ "." +:+ pad2 (plusOne (getMonth date)) +:+ "."
  +:+ numberToString (getFullYear date) +:+ " "
  +:+ pad2 (getHours date) +:+ ":" +:+ pad2 (getMinutes date) +:+ ":"
  +:+ pad2 (getSeconds date).

(** Reads an integer in decimal notation. *)
Definition parseInteger (s : string) : option Z :=
  Z.of_int <$> NilZero.int_of_string s.

(** Reads a string of the form [DD.MM.Y HH:MM:SS] back into fields. *)
Definition parseDateString (s : string) : option LocalTime :=
  let len := String.length s in
  if negb (String.eqb (String.substring 2 1 s) "."
           && String.eqb (String.substring 5 1 s) "."
           && String.eqb (String.substring (len - 9) 1 s) " "
           && String.eqb (String.substring (len - 6) 1 s) ":"
           && String.eqb (String.substring (len - 3) 1 s) ":")
  then None
  else
    d ← parseInteger (String.substring 0 2 s);
    mo ← parseInteger (String.substring 3 2 s);
    y ← parseInteger (String.substring 6 (len - 15) s);
    h ← parseInteger (String.substring (len - 8) 2 s);
    mi ← parseInteger (String.substring (len - 5) 2 s);
    se ← parseInteger (String.substring (len - 2) 2 s);
    Some {| day := d; month := mo - 1; fullYear := y;
            hours := h; minutes := mi; seconds := se |}.

(** New Year's Eve 2021, one second before midnight. *)
Definition newYearsEve : LocalTime :=
  {| day := 31; month := 11; fullYear := 2021;
     hours := 23; minutes := 59; seconds := 59 |}.

(** The fifth of March of the year 7, early in the morning. *)
Definition earlyDate : LocalTime :=
  {| day := 5; month := 2; fullYear := 7;
     hours := 4; minutes := 3; seconds := 9 |}.

End Dates.
Import Dates.

(** * Properties *)

(** ** Tactics for property lookups *)

Ltac js_lookup :=
  repeat first
    [ rewrite lookup_alter_eq | rewrite lookup_insert_eq | rewrite lookup_delete_eq
    | rewrite lookup_alter_ne by done
    | rewrite lookup_insert_ne by done
    | rewrite lookup_delete_ne by done
    | match goal with H : ?m !! ?k = _ |- context [?m !! ?k] => rewrite H end ].

Ltac js_lookup_in H :=
  repeat first
    [ rewrite lookup_alter_eq in H | rewrite lookup_insert_eq in H
    | rewrite lookup_delete_eq in H
    | rewrite lookup_alter_ne in H by done
    | rewrite lookup_insert_ne in H by done
    | rewrite lookup_delete_ne in H by done
    | match goal with E : ?m !! ?k = _ |- _ =>
        match type of H with context [m !! k] => rewrite E in H end end ].

(** Runs the model in [H] as far as the shape of the configuration allows,
    splitting on the properties it reads. *)
Ltac js_run H :=
  repeat first
    [ progress cbn in H
    | progress js_lookup_in H
    | discriminate H
    | match type of H with
      | context [default _ (?m !! ?k)] => destruct (m !! k) as [[]|] eqn:?
      end ].

(** ** Property access *)

Section PropertyAccess.

Implicit Types (m : gmap string JsValue) (k : string) (x : JsValue).

Lemma alter_const_twice m k x y :
  alter (fun _ => x) k (alter (fun _ => y) k m) = alter (fun _ => x) k m.
Proof. by rewrite alter_alter_eq. Qed.

Lemma alter_const_swap m k1 k2 x y :
  k1 ≠ k2 ->
  alter (fun _ => x) k1 (alter (fun _ => y) k2 m)
  = alter (fun _ => y) k2 (alter (fun _ => x) k1 m).
Proof. intros. by apply alter_alter_ne. Qed.

(** A completed nested assignment can be read back. *)
Lemma assignIn_read o k1 k2 v o' :
  assignIn o k1 k2 v = Normal o' ->
  (target ← getProp o' k1; getProp target k2) = Normal v.
Proof.
  unfold assignIn.
  destruct o as [| | | | |elems props]; cbn; try done.
  destruct (props !! k1) as [[| | | | |es m]|] eqn:E; cbn; try done.
  intros [= <-]. cbn. rewrite lookup_alter_eq, E. cbn.
  by rewrite lookup_insert_eq.
Qed.

(** Repeating a nested assignment of a constant changes nothing more. *)
Lemma assignIn_twice o k1 k2 v :
  assignIn o k1 k2 v ≫= (fun o' => assignIn o' k1 k2 v) = assignIn o k1 k2 v.
Proof.
  unfold assignIn.
  destruct o as [| | | | |elems props]; cbn; try done.
  destruct (props !! k1) as [[| | | | |es m]|] eqn:E; cbn; try done.
  rewrite lookup_alter_eq, E. cbn.
  by rewrite insert_insert_eq, alter_const_twice.
Qed.

End PropertyAccess.

(** ** The patches *)

Section Patches.

(** After the fourth patch completed, a second run completes as well and
    stores [false]; it reproduces the configuration exactly when [false]
    is what the first run stored. *)
Lemma patch_turnOnPrinterWhenExitingSleep_again config config1 :
  patch_turnOnPrinterWhenExitingSleep config = Normal config1 ->
  patch_turnOnPrinterWhenExitingSleep config1 = Normal config1
  <-> readTurnOnPrinter config1 = Normal (JsBoolean false).
Proof.
  unfold patch_turnOnPrinterWhenExitingSleep, readTurnOnPrinter. intros H.
  destruct config; js_run H.
  all: injection H as <-.
  all: repeat (cbn; js_lookup).
  all: rewrite ?insert_insert_eq, ?delete_delete_eq, ?alter_const_twice.
  all: unfold mret, Completion_ret.
  all: split; intros E; simplify_eq; try done.
  all: try match goal with
       | E : _ = _ :> gmap string JsValue |- _ =>
           apply (f_equal (fun m : gmap string JsValue => m !! "octodash")) in E;
           js_lookup_in E; cbn in E; simplify_eq;
           match goal with
           | E' : _ = _ :> gmap string JsValue |- _ =>
               apply (f_equal (fun m : gmap string JsValue =>
                                 m !! "turnOnPrinterWhenExitingSleep")) in E';
               js_lookup_in E'; by simplify_eq
           end
       end.
  all: do 2 f_equal;
       rewrite (alter_const_swap _ "octodash" "plugins") by done;
       by rewrite !alter_const_twice.
Qed.

(** C2, as stated, fails: on a configuration whose
    [plugins.psuControl.turnOnPSUWhenExitingSleep] is [true], the patch for
    [turnOnPrinterWhenExitingSleep] stores [true] the first time and
    [false] the second time, so applying it twice differs from applying it
    once. *)
Lemma turnOnPrinter_patch_not_idempotent :
  patch_turnOnPrinterWhenExitingSleep psuOnConfig
    ≫= patch_turnOnPrinterWhenExitingSleep
  ≠ patch_turnOnPrinterWhenExitingSleep psuOnConfig.
Proof.
  intros H.
  apply (f_equal (fun r => r ≫= readTurnOnPrinter)) in H.
  vm_compute in H. discriminate H.
Qed.

(** C2, amended: each of the three patches that store a constant
    ([zBabystepGCode], [tpLinkSmartPlug], [previewProgressCircle]) is
    idempotent on every configuration.  The patch for
    [turnOnPrinterWhenExitingSleep] copies
    [plugins.psuControl.turnOnPSUWhenExitingSleep] (defaulting to [false])
    into [octodash.turnOnPrinterWhenExitingSleep] and deletes the source,
    so a second application finds no source: it yields the same
    configuration as the first exactly when the first one stored
    [false]. *)
Theorem registered_patches_reapplied :
  (forall config, patch_zBabystepGCode config ≫= patch_zBabystepGCode
                  = patch_zBabystepGCode config)
  /\ (forall config, patch_tpLinkSmartPlug config ≫= patch_tpLinkSmartPlug
                     = patch_tpLinkSmartPlug config)
  /\ (forall config, patch_previewProgressCircle config ≫= patch_previewProgressCircle
                     = patch_previewProgressCircle config)
  /\ (forall config config1,
        patch_turnOnPrinterWhenExitingSleep config = Normal config1 ->
        patch_turnOnPrinterWhenExitingSleep config1 = Normal config1
        <-> readTurnOnPrinter config1 = Normal (JsBoolean false)).
Proof.
  split; [|split; [|split]]; try (intros; apply assignIn_twice).
  apply patch_turnOnPrinterWhenExitingSleep_again.
Qed.

(** The amended claim at [psuOffConfig]: the source holds [false], the
    patch stores [false], and a second application changes nothing. *)
Lemma registered_patches_reapplied_witness :
  patch_turnOnPrinterWhenExitingSleep psuOffConfig = Normal psuOffFixed
  /\ patch_turnOnPrinterWhenExitingSleep psuOffFixed = Normal psuOffFixed.
Proof.
  assert (E : patch_turnOnPrinterWhenExitingSleep psuOffConfig = Normal psuOffFixed)
    by (vm_compute; reflexivity).
  split; [exact E|].
  apply (proj2 (proj2 (proj2 registered_patches_reapplied)) psuOffConfig psuOffFixed E).
  vm_compute. reflexivity.
Defined.

(** The example of C9 for the first patch, on every configuration: when
    the patch completes, [printer.zBabystepGCode] reads ["M290 Z"]. *)
Lemma patch_zBabystepGCode_read config config' :
  patch_zBabystepGCode config = Normal config' ->
  readZBabystepGCode config' = Normal (JsString "M290 Z").
Proof. apply assignIn_read. Qed.

End Patches.

(** ** The auto-fix engine *)

Section Engine.

Variable rt : Runtime.

Lemma includes_In array value : includes array value = true <-> In value array.
Proof.
  unfold includes. rewrite existsb_exists. split.
  - intros (x & Hx & E). apply String.eqb_eq in E. by subst.
  - intros H. exists value. split; [done|]. apply String.eqb_refl.
Qed.

Lemma ownProperty_keys reg k :
  includes (keys reg) k = bool_decide (is_Some (ownProperty reg k)).
Proof.
  induction reg as [|[k' p] reg IH]; cbn; [done|].
  destruct (String.eqb k k'); cbn; [done|exact IH].
Qed.

(** A registered identifier is found by [_.hasIn], and indexing the
    registry with it yields its patch. *)
Lemma registered_member error patch :
  ownProperty updateError error = Some patch ->
  hasIn rt error = true /\ lookupMember error = Some (Registered patch).
Proof. unfold hasIn, lookupMember. intros ->. done. Qed.

(** An identifier that starts with a dot, as those of the validator for a
    nested property do, is found by [_.hasIn] exactly when it is a key of
    the registry. *)
Lemma hasIn_leading_dot error :
  hasIn rt (String "." error) = includes (keys updateError) (String "." error).
Proof.
  rewrite ownProperty_keys. unfold hasIn, lookupMember.
  by destruct (ownProperty updateError (String "." error)) as [p|] eqn:E.
Qed.

(** On a batch in which every identifier is either registered or unknown
    to [_.hasIn], the loop applies the registered patches in order and
    the flag records whether all identifiers were registered. *)
Lemma forErrors_regular errors :
  forall config fullyAutofixed,
  Forall (fun e => includes (keys updateError) e = true \/ hasIn rt e = false) errors ->
  forErrors rt errors config fullyAutofixed
  = applyRegistered errors config ≫= fun config' =>
      Normal (config', fullyAutofixed && forallb (includes (keys updateError)) errors).
Proof.
  induction errors as [|e errors IH]; intros config b Hall;
    cbn [forErrors applyRegistered forallb].
  - cbn. by rewrite andb_true_r.
  - apply Forall_cons in Hall as [He Hall].
    rewrite ownProperty_keys in He |- *.
    destruct (ownProperty updateError e) as [p|] eqn:E.
    + destruct (registered_member e p E) as [-> ->].
      cbn [callMember]. destruct (p config) as [config'|err]; [|done].
      cbn [mbind Completion_bind]. by rewrite IH.
    + destruct He as [He|He]; [by apply bool_decide_eq_true in He as [? ?]|].
      rewrite He, IH by done.
      destruct (applyRegistered errors config); [|done].
      cbn. by rewrite andb_false_r.
Qed.

(** [fixUpdateErrors] on such a batch whose registered patches complete:
    one read of the store, one save of the patched configuration, and the
    result tells whether every identifier was registered. *)
Lemma fixUpdateErrors_regular current errors config' :
  Forall (fun e => includes (keys updateError) e = true \/ hasIn rt e = false) errors ->
  applyRegistered errors current = Normal config' ->
  fixUpdateErrors rt current errors
  = {| completion := Normal (forallb (includes (keys updateError)) errors);
       storeCalls := [GetCurrentConfig; SaveConfig config'] |}.
Proof.
  intros Hall Happ. unfold fixUpdateErrors.
  rewrite forErrors_regular by done. by rewrite Happ.
Qed.

(** Partial repair: an identifier that [_.hasIn] does not find only clears
    the result; the registered patch next to it is applied and saved. *)
Lemma fixUpdateErrors_partial_repair :
  exists config,
    fixUpdateErrors rt emptyConfig ["unknown.only"; key_zBabystepGCode]
    = {| completion := Normal false;
         storeCalls := [GetCurrentConfig; SaveConfig config] |}
    /\ readZBabystepGCode config = Normal (JsString "M290 Z").
Proof. eexists. split; vm_compute; reflexivity. Qed.

(** A registered patch throws when the section it assigns into is missing;
    the exception leaves [fixUpdateErrors] before the save. *)
Lemma fixUpdateErrors_missing_section :
  fixUpdateErrors rt (JsObject None ∅) [key_previewProgressCircle]
  = {| completion := Throw TypeError; storeCalls := [GetCurrentConfig] |}.
Proof. vm_compute. reflexivity. Qed.

(** C1: [fixUpdateErrors] tests membership with [_.hasIn], which also
    finds what the registry object inherits from [Object.prototype].  The
    batch [["toString"]] holds no key of the registry ([hasUpdateError]
    agrees), yet the call saves the configuration unchanged and returns
    [true]; the batch [["__proto__"]] makes the call throw before the
    save. *)
Theorem fixUpdateErrors_inherited_member current :
  includes (keys updateError) "toString" = false
  /\ hasUpdateError ["toString"] = false
  /\ fixUpdateErrors rt current ["toString"]
     = {| completion := Normal true;
          storeCalls := [GetCurrentConfig; SaveConfig current] |}
  /\ includes (keys updateError) "__proto__" = false
  /\ fixUpdateErrors rt current ["__proto__"]
     = {| completion := Throw TypeError; storeCalls := [GetCurrentConfig] |}.
Proof. repeat split. Qed.

(** C9: on the configuration whose sections are empty, the batch of the
    [previewProgressCircle] and [tpLinkSmartPlug] errors is fully fixed:
    the call returns [true] and saves, once, a configuration in which
    [octodash.previewProgressCircle] is [false] and
    [plugins.tpLinkSmartPlug] is [{enabled: true, smartPlugIP:
    "127.0.0.1"}]; and the [zBabystepGCode] patch sets
    [printer.zBabystepGCode] to ["M290 Z"]. *)
Theorem fixUpdateErrors_example :
  exists config,
    fixUpdateErrors rt emptyConfig [key_previewProgressCircle; key_tpLinkSmartPlug]
    = {| completion := Normal true;
         storeCalls := [GetCurrentConfig; SaveConfig config] |}
    /\ readPreviewProgressCircle config = Normal (JsBoolean false)
    /\ readTpLinkSmartPlug config
       = Normal (JsObject None (<["enabled" := JsBoolean true]>
                               (<["smartPlugIP" := JsString "127.0.0.1"]> ∅)))
    /\ (patch_zBabystepGCode emptyConfig ≫= readZBabystepGCode)
       = Normal (JsString "M290 Z").
Proof.
  eexists. split; [vm_compute; reflexivity|].
  repeat split; vm_compute; reflexivity.
Qed.

Lemma baseIntersection_nonempty array other :
  forall result,
  (0 < length (baseIntersection array other result))%nat
  <-> result ≠ [] \/ exists e, In e array /\ In e other.
Proof.
  induction array as [|x array IH]; intros result; cbn.
  - split.
    + intros H. left. intros ->. cbn in H. lia.
    + intros [H|(e & [] & _)]. destruct result; [done|cbn; lia].
  - destruct (negb (includes result x) && includes other x) eqn:C.
    + apply andb_true_iff in C as [_ C]. apply includes_In in C.
      rewrite IH. split; [|intros _; left; by destruct result].
      intros _. right. exists x. split; [by left|done].
    + rewrite IH. split; (intros [H|(e & He & Hb)]; [by left|]).
      * right. exists e. split; [by right|done].
      * destruct He as [->|He]; [|right; by exists e].
        apply andb_false_iff in C as [C|C].
        -- apply negb_false_iff, includes_In in C. left. by intros ->.
        -- apply includes_In in Hb. congruence.
Qed.

(** C7: [hasUpdateError] returns [true] exactly when some element of the
    sequence is a key of the registry; it returns [false] on
    [["unknown.only"]] and [true] once the [zBabystepGCode] identifier is
    added. *)
Theorem hasUpdateError_intersection :
  (forall errors : list string,
     hasUpdateError errors = true
     <-> exists e, e ∈ errors /\ e ∈ keys updateError)
  /\ hasUpdateError ["unknown.only"] = false
  /\ hasUpdateError ["unknown.only";
                     ".printer should have required property 'zBabystepGCode'"] = true.
Proof.
  split; [|split; reflexivity].
  intros errors. unfold hasUpdateError, intersection.
  rewrite Nat.ltb_lt, baseIntersection_nonempty.
  split.
  - intros [H|(e & H1 & H2)]; [done|].
    exists e. by rewrite !list_elem_of_In.
  - intros (e & H1 & H2). right. exists e. by rewrite <- !list_elem_of_In.
Qed.

End Engine.

(** ** String replacement *)

Section Replace.

Lemma substring_all s : String.substring 0 (String.length s) s = s.
Proof. induction s as [|c s IH]; cbn; [done|]. by rewrite IH. Qed.

(** A leading [v] is the first occurrence. *)
Lemma replace_leading_v s : replace "v" "" (String "v" s) = s.
Proof.
  cbn [replace String.prefix]. destruct (ascii_dec "v"%char "v"%char); [|done].
  replace (String.prefix "" s) with true by (by destruct s).
  cbn. rewrite Nat.sub_0_r. apply substring_all.
Qed.

Lemma replace_skip c s :
  Ascii.eqb c "v"%char = false ->
  replace "v" "" (String c s) = String c (replace "v" "" s).
Proof.
  intros H. cbn [replace String.prefix].
  destruct (ascii_dec "v"%char c) as [<-|_]; [done|reflexivity].
Qed.

(** Without any [v] the string is unchanged. *)
Lemma replace_no_v s : occurs "v"%char s = false -> replace "v" "" s = s.
Proof.
  induction s as [|c s IH]; [done|]. cbn [occurs].
  intros [Hc Hs]%orb_false_iff. rewrite replace_skip by done. by rewrite IH.
Qed.

(** In general the first [v], wherever it stands, is removed. *)
Lemma replace_first_v pre post :
  occurs "v"%char pre = false ->
  replace "v" "" (pre +:+ String "v" post) = pre +:+ post.
Proof.
  induction pre as [|c pre IH]; cbn [occurs].
  - intros _. apply replace_leading_v.
  - intros [Hc Hs]%orb_false_iff.
    change (String c pre +:+ String "v" post)
      with (String c (pre +:+ String "v" post)).
    rewrite replace_skip by done. by rewrite IH.
Qed.

Lemma String_neq_tail c s : String c s ≠ s.
Proof. induction s as [|c' s IH]; [done|]. intros [= -> H]. by apply IH. Qed.

End Replace.

(** ** The update check *)

Section UpdateCheck.

Variable rt : Runtime.


(** What the [next] callback does to the flag. *)
Lemma onNext_flag data a :
  updateAvailable (onNext data a)
  = updateAvailable a || strictNeq (version a) (replace "v" "" (name data)).
Proof.
  unfold onNext.
  destruct (strictNeq (version a) (replace "v" "" (name data))); cbn.
  - by rewrite orb_true_r.
  - by rewrite orb_false_r.
Qed.


Lemma step_HttpError_frame w w' :
  step rt HttpError w = Some w' ->
  svc w' = svc w /\ notifications w' = notifications w /\ timers w' = timers w
  /\ clock w' = clock w /\ ipcSent w' = ipcSent w.
Proof. cbn. destruct (requests w); [done|]. by intros [= <-]. Qed.

Lemma step_armed ev w w' : step rt ev w = Some w' -> armed w -> armed w'.
Proof.
  unfold armed. destruct ev; cbn; intros H Hw.
  all: try by (injection H as <-; cbn; try done; by destruct (timers w)).
  - destruct (requests w) eqn:R; [done|]. injection H as <-. cbn.
    intros E. by specialize (Hw E).
  - destruct (requests w) eqn:R; [done|]. injection H as <-. cbn.
    intros E. by specialize (Hw E).
  - destruct (0 <=? ms); [|done]. by injection H as <-.
  - destruct (timers w) as [|due rest]; [done|].
    destruct (due <=? clock w); [|done]. injection H as <-. cbn.
    by destruct rest.
Qed.

Lemma run_armed evs : forall w w', run rt evs w = Some w' -> armed w -> armed w'.
Proof.
  induction evs as [|ev evs IH]; cbn; intros w w' H Hw.
  - by injection H as <-.
  - destruct (step rt ev w) as [w1|] eqn:E; [|done].
    eapply IH; [exact H|]. by eapply step_armed.
Qed.

(** C4: a failed poll leaves [updateAvailable], [latestVersion] and
    [latestVersionAssetsURL] as they were, notifies nobody, and removes no
    timer; and in every world reached from the constructor, a timer for
    the next [checkUpdate] is pending after the failure. *)
Theorem failed_poll_changes_nothing t0 evs w w' :
  run rt evs (construct t0) = Some w ->
  step rt HttpError w = Some w' ->
  updateAvailable (svc w') = updateAvailable (svc w)
  /\ latestVersion (svc w') = latestVersion (svc w)
  /\ latestVersionAssetsURL (svc w') = latestVersionAssetsURL (svc w)
  /\ notifications w' = notifications w
  /\ timers w' = timers w
  /\ timers w' ≠ [].
Proof.
  intros Hrun Hstep.
  destruct (step_HttpError_frame w w' Hstep) as (Hsvc & Hn & Ht & _).
  rewrite Hsvc, Hn, Ht. repeat split; try done.
  assert (Ha : armed w) by (eapply run_armed; [exact Hrun|done]).
  intros E. specialize (Ha E). cbn in Hstep. by rewrite Ha in Hstep.
Qed.

(** C5: the code strips the prefix with [data.name.replace('v', '')],
    which removes the first [v] wherever it stands, and so misses the names
    that hold a [v] but do not start with one.  The release [1.0-dev] has
    no leading [v] and C5 stores it unchanged; the code stores [1.0-de],
    and, the running version being [1.0-dev] itself, reports an update
    against the very version that runs. *)
Lemma latestVersion_inner_v_removed :
  exists w,
    run plainRuntime devRelease (construct 0) = Some w
    /\ version (svc w) = Some "1.0-dev"
    /\ latestVersion (svc w) = Some "1.0-de"
    /\ latestVersion (svc w) ≠ Some "1.0-dev"
    /\ updateAvailable (svc w) = true.
Proof.
  eexists. split; [vm_compute; reflexivity|].
  split; [reflexivity|]. split; [reflexivity|]. split; [done|reflexivity].
Qed.

(** What a successful poll stores: [latestVersion] and the asset URL are
    written whatever the running version is; a leading [v] is stripped and
    later ones are kept; a name without [v] is stored unchanged; on any
    other name the first inner [v] is lost. *)
Theorem onNext_latestVersion :
  (forall data a,
     latestVersion (onNext data a) = Some (replace "v" "" (name data))
     /\ latestVersionAssetsURL (onNext data a) = Some (assets_url data))
  /\ (forall s, replace "v" "" (String "v" s) = s)
  /\ (forall s, occurs "v"%char s = false -> replace "v" "" s = s)
  /\ (forall pre post, occurs "v"%char pre = false ->
        replace "v" "" (pre +:+ String "v" post) = pre +:+ post).
Proof.
  split; [|split; [|split]].
  - intros data a. unfold onNext.
    by destruct (strictNeq (version a) (replace "v" "" (name data))).
  - apply replace_leading_v.
  - apply replace_no_v.
  - apply replace_first_v.
Qed.

(** C6, as stated, fails: the running version is stored and compared as
    announced, so a running version [v1.2.0] and a release named [v1.2.0]
    compare as different and set [updateAvailable]. *)
Lemma version_prefix_not_dropped :
  exists w,
    run plainRuntime prefixedVersion (construct 0) = Some w
    /\ version (svc w) = Some "v1.2.0"
    /\ latestVersion (svc w) = Some "1.2.0"
    /\ updateAvailable (svc w) = true.
Proof. eexists. split; [vm_compute; reflexivity|]. repeat split. Qed.

(** C6, amended: only the release name has its first [v] removed; the
    version event stores the running version unchanged.  So for every
    [x], a running version [x] and a release named [v]+[x] compare as
    equal and leave [updateAvailable] as it was, while a running version
    [v]+[x] and a release named [v]+[x] compare as different and set it. *)
Theorem version_compared_as_announced x url w :
  let w1 := onVersionInformation {| info_version := x |} w in
  let w2 := onVersionInformation {| info_version := String "v" x |} w in
  version (svc w1) = Some x
  /\ version (svc w2) = Some (String "v" x)
  /\ updateAvailable (onNext (release (String "v" x) url) (svc w1))
     = updateAvailable (svc w)
  /\ updateAvailable (onNext (release (String "v" x) url) (svc w2)) = true.
Proof.
  cbn zeta. split; [done|]. split; [done|].
  rewrite !onNext_flag. cbn [name release].
  rewrite replace_leading_v.
  change (updateAvailable (svc w) || negb (String.eqb x x) = updateAvailable (svc w)
          /\ updateAvailable (svc w) || negb (String.eqb (String "v" x) x) = true).
  rewrite String.eqb_refl. split; [apply orb_false_r|].
  destruct (String.eqb_spec (String "v" x) x) as [E|_]; [|apply orb_true_r].
  by apply String_neq_tail in E.
Qed.

(** C8: an invocation of [checkUpdate] arms exactly one timer, due
    3,600,000 ms after the invocation, before the request settles;
    neither outcome of the request arms or removes a timer; and a due
    timer, when it fires, is consumed and invokes [checkUpdate]. *)
Theorem checkUpdate_schedules_one :
  (forall w, timers (checkUpdate w) = (timers w ++ [clock w + 3600000])%list
             /\ clock (checkUpdate w) = clock w
             /\ requests (checkUpdate w) = S (requests w))
  /\ (forall data w w', step rt (HttpNext data) w = Some w' -> timers w' = timers w)
  /\ (forall w w', step rt HttpError w = Some w' -> timers w' = timers w)
  /\ (forall w w', step rt TimerFires w = Some w' ->
        exists due rest,
          timers w = due :: rest /\ due <= clock w
          /\ timers w' = (rest ++ [clock w + 3600000])%list
          /\ requests w' = S (requests w)).
Proof.
  split; [done|]. split; [|split].
  - intros data w w'. cbn. destruct (requests w); [done|]. by intros [= <-].
  - intros w w' H. by apply step_HttpError_frame in H as (_ & _ & H & _).
  - intros w w'. cbn. destruct (timers w) as [|due rest]; [done|].
    destruct (Z.leb_spec due (clock w)); [|done]. intros [= <-].
    by exists due, rest.
Qed.

Lemma step_updateAvailable ev w w' :
  step rt ev w = Some w' ->
  updateAvailable (svc w') ≠ updateAvailable (svc w) ->
  exists data,
    ev = HttpNext data
    /\ strictNeq (version (svc w)) (replace "v" "" (name data)) = true
    /\ updateAvailable (svc w) = false
    /\ updateAvailable (svc w') = true.
Proof.
  destruct ev; cbn [step]; intros H Hne.
  all: try by (injection H as <-).
  - destruct (requests w); [done|]. injection H as <-. cbn [svc] in Hne |- *.
    rewrite onNext_flag in Hne. exists data.
    rewrite onNext_flag.
    destruct (updateAvailable (svc w)), (strictNeq (version (svc w)) _); done.
  - destruct (requests w); [done|]. by injection H as <-.
  - destruct (0 <=? ms); [|done]. by injection H as <-.
  - destruct (timers w) as [|due rest]; [done|].
    destruct (due <=? clock w); [|done]. by injection H as <-.
Qed.

Lemma step_updateAvailable_kept ev w w' :
  step rt ev w = Some w' ->
  updateAvailable (svc w) = true -> updateAvailable (svc w') = true.
Proof.
  intros H Hw.
  destruct (updateAvailable (svc w')) eqn:E; [done|].
  destruct (step_updateAvailable ev w w' H) as (_ & _ & _ & Hf & _); congruence.
Qed.

(** C10: [updateAvailable] is [false] after the constructor; whatever
    happens to the service afterwards, once it is [true] it stays [true];
    and the only event that changes it is a successful poll whose release
    name, with its first [v] removed, differs from the running version,
    which sets it to [true]. *)
Theorem updateAvailable_monotone :
  (forall t0, updateAvailable (svc (construct t0)) = false)
  /\ (forall evs w w',
        run rt evs w = Some w' ->
        updateAvailable (svc w) = true -> updateAvailable (svc w') = true)
  /\ (forall ev w w',
        step rt ev w = Some w' ->
        updateAvailable (svc w') ≠ updateAvailable (svc w) ->
        exists data,
          ev = HttpNext data
          /\ strictNeq (version (svc w)) (replace "v" "" (name data)) = true
          /\ updateAvailable (svc w) = false
          /\ updateAvailable (svc w') = true).
Proof.
  split; [done|]. split; [|apply step_updateAvailable].
  induction evs as [|ev evs IH]; cbn; intros w w' H Hw.
  - by injection H as <-.
  - destruct (step rt ev w) as [w1|] eqn:E; [|done].
    eapply IH; [exact H|]. by eapply step_updateAvailable_kept.
Qed.

End UpdateCheck.

(** ** The theorems at concrete worlds *)

(** [failed_poll_changes_nothing] when the first poll fails. *)
Lemma failed_poll_changes_nothing_witness :
  updateAvailable (svc (after (failedPoll ++ [HttpError])))
  = updateAvailable (svc (after failedPoll))
  /\ latestVersion (svc (after (failedPoll ++ [HttpError])))
     = latestVersion (svc (after failedPoll))
  /\ latestVersionAssetsURL (svc (after (failedPoll ++ [HttpError])))
     = latestVersionAssetsURL (svc (after failedPoll))
  /\ notifications (after (failedPoll ++ [HttpError])) = notifications (after failedPoll)
  /\ timers (after (failedPoll ++ [HttpError])) = timers (after failedPoll)
  /\ timers (after (failedPoll ++ [HttpError])) ≠ [].
Proof.
  apply (failed_poll_changes_nothing plainRuntime 0 failedPoll);
    vm_compute; reflexivity.
Defined.


(** [onNext_latestVersion] at the release names [1.3.0], which is kept,
    and [1.0-dev], which loses its [v]. *)
Lemma onNext_latestVersion_witness :
  replace "v" "" "1.3.0" = "1.3.0" /\ replace "v" "" "1.0-dev" = "1.0-de".
Proof.
  split.
  - apply (proj1 (proj2 (proj2 onNext_latestVersion)) "1.3.0"). reflexivity.
  - apply (proj2 (proj2 (proj2 onNext_latestVersion)) "1.0-de" ""). reflexivity.
Defined.

(** [checkUpdate_schedules_one] when the first timer comes due. *)
Lemma checkUpdate_schedules_one_witness :
  exists due rest,
    timers (after timerDue) = due :: rest /\ due <= clock (after timerDue)
    /\ timers (after (timerDue ++ [TimerFires]))
       = (rest ++ [clock (after timerDue) + 3600000])%list
    /\ requests (after (timerDue ++ [TimerFires])) = S (requests (after timerDue)).
Proof.
  apply (proj2 (proj2 (proj2 (checkUpdate_schedules_one plainRuntime)))).
  vm_compute. reflexivity.
Defined.

(** [updateAvailable_monotone] on the events of [withdrawnRelease]: the flag
    set by the first poll survives the hour and the second poll. *)
Lemma updateAvailable_monotone_witness :
  updateAvailable (svc (after withdrawnRelease)) = true.
Proof.
  apply (proj1 (proj2 (updateAvailable_monotone plainRuntime))
           (drop 2 withdrawnRelease) (after (take 2 withdrawnRelease)));
    vm_compute; reflexivity.
Defined.

(** * Further properties *)

(** ** The patches, field by field *)

Section PatchEffects.

Implicit Types (m props : gmap string JsValue) (k : string) (v : JsValue).

(** A nested assignment completes exactly on an object whose property
    [k1] holds an object, and then replaces that object's property [k2]. *)
Lemma assignIn_direct o k1 k2 v :
  assignIn o k1 k2 v
  = match o with
    | JsObject el props =>
        match props !! k1 with
        | Some (JsObject e m) =>
            Normal (JsObject el (<[k1 := JsObject e (<[k2 := v]> m)]> props))
        | _ => Throw TypeError
        end
    | _ => Throw TypeError
    end.
Proof.
  unfold assignIn.
  destruct o as [| | | | |el props]; cbn; try done.
  destruct (props !! k1) as [[| | | | |e m]|] eqn:E; cbn; try done.
  unfold mret, Completion_ret. do 2 f_equal.
  apply map_eq. intros i. destruct (decide (i = k1)) as [->|].
  - by rewrite lookup_alter_eq, lookup_insert_eq, E.
  - by rewrite lookup_alter_ne, lookup_insert_ne.
Qed.

Lemma alter_const_insert m k v :
  is_Some (m !! k) -> alter (fun _ => v) k m = <[k := v]> m.
Proof.
  intros [x Hx]. apply map_eq. intros i. destruct (decide (i = k)) as [->|].
  - by rewrite lookup_alter_eq, lookup_insert_eq, Hx.
  - by rewrite lookup_alter_ne, lookup_insert_ne.
Qed.

(** The fourth patch, statement by statement, is [migrateTurnOn]. *)
Lemma patch_turnOnPrinterWhenExitingSleep_direct config :
  patch_turnOnPrinterWhenExitingSleep config = migrateTurnOn config.
Proof.
  unfold patch_turnOnPrinterWhenExitingSleep, migrateTurnOn.
  destruct config as [| | | | |el props]; cbn; try done.
  destruct (props !! "octodash") as [[| | | | |eo mo]|] eqn:Eo; cbn;
    destruct (props !! "plugins") as [[| | | | |ep mp]|] eqn:Ep; cbn; try done;
    destruct (mp !! "psuControl") as [psu|] eqn:Ec; cbn; try done;
    destruct psu as [| | | | |ec mc]; cbn; try done.
  all: js_lookup; cbn; js_lookup; cbn.
  all: unfold mret, Completion_ret; do 2 f_equal.
  all: rewrite !alter_const_insert by (js_lookup; by eexists); done.
Qed.

Lemma readPath_insert_ne el props k x p :
  match p with k' :: _ => k' ≠ k | [] => False end ->
  readPath p (JsObject el (<[k := x]> props)) = readPath p (JsObject el props).
Proof.
  destruct p as [|k' p]; [done|]. intros Hne. cbn.
  by rewrite lookup_insert_ne.
Qed.

(** A completed nested assignment is seen only through its own field. *)
Lemma assignIn_frame o k1 k2 v o' p :
  assignIn o k1 k2 v = Normal o' ->
  diverges p [k1; k2] = true ->
  readPath p o' = readPath p o.
Proof.
  rewrite assignIn_direct.
  destruct o as [| | | | |el props]; try done.
  destruct (props !! k1) as [[| | | | |e m]|] eqn:E; try done.
  intros [= <-]. destruct p as [|x p]; [done|]. cbn [diverges].
  destruct (String.eqb_spec x k1) as [->|Hx].
  - destruct p as [|y p]; [done|]. cbn [diverges].
    destruct (String.eqb_spec y k2) as [->|Hy]; [by destruct p|]. intros _.
    cbn. rewrite lookup_insert_eq, E. cbn. by rewrite lookup_insert_ne.
  - intros _. by apply readPath_insert_ne.
Qed.

(** The fourth patch is seen only through the field it writes and the
    field it deletes. *)
Lemma migrateTurnOn_frame config config' p :
  migrateTurnOn config = Normal config' ->
  diverges p path_turnOnPrinter = true ->
  diverges p path_turnOnPSU = true ->
  readPath p config' = readPath p config.
Proof.
  unfold migrateTurnOn.
  destruct config as [| | | | |el props]; try done.
  destruct (props !! "octodash") as [[| | | | |eo mo]|] eqn:Eo; try done.
  destruct (props !! "plugins") as [[| | | | |ep mp]|] eqn:Ep; try done.
  destruct (mp !! "psuControl") as [psu|] eqn:Ec; try done.
  destruct (isNullish psu) eqn:Hn; [done|]. intros [= <-].
  destruct p as [|x p]; [done|]. cbn [diverges path_turnOnPrinter path_turnOnPSU].
  destruct (String.eqb_spec x "octodash") as [->|Hxo].
  - intros Hd _. destruct p as [|y p]; [done|]. cbn [diverges] in Hd.
    destruct (String.eqb_spec y "turnOnPrinterWhenExitingSleep") as [->|Hy];
      [by destruct p|].
    cbn. rewrite lookup_insert_ne, lookup_insert_eq, Eo by done. cbn.
    by rewrite lookup_insert_ne.
  - intros _. destruct (String.eqb_spec x "plugins") as [->|Hxp].
    + intros Hd. destruct p as [|y p]; [done|]. cbn [diverges] in Hd.
      cbn. rewrite lookup_insert_eq, Ep. cbn.
      destruct (String.eqb_spec y "psuControl") as [->|Hy].
      * destruct p as [|z p]; [done|]. cbn [diverges] in Hd.
        destruct (String.eqb_spec z "turnOnPSUWhenExitingSleep") as [->|Hz];
          [by destruct p|].
        rewrite lookup_insert_eq, Ec. cbn.
        destruct psu as [| | | | |ec mc]; try done.
        cbn. by rewrite lookup_delete_ne.
      * by rewrite lookup_insert_ne.
    + intros _. rewrite !readPath_insert_ne; done.
Qed.

(** The patch registered under a key is one of the four. *)
Lemma ownProperty_updateError error patch :
  ownProperty updateError error = Some patch ->
  (error = key_zBabystepGCode /\ patch = patch_zBabystepGCode)
  \/ (error = key_tpLinkSmartPlug /\ patch = patch_tpLinkSmartPlug)
  \/ (error = key_previewProgressCircle /\ patch = patch_previewProgressCircle)
  \/ (error = key_turnOnPrinterWhenExitingSleep
      /\ patch = patch_turnOnPrinterWhenExitingSleep).
Proof.
  unfold updateError. cbn [ownProperty].
  destruct (String.eqb_spec error key_zBabystepGCode) as [->|_];
    [intros [= <-]; tauto|].
  destruct (String.eqb_spec error key_tpLinkSmartPlug) as [->|_];
    [intros [= <-]; tauto|].
  destruct (String.eqb_spec error key_previewProgressCircle) as [->|_];
    [intros [= <-]; tauto|].
  destruct (String.eqb_spec error key_turnOnPrinterWhenExitingSleep) as [->|_];
    [intros [= <-]; tauto|].
  done.
Qed.

(** Every registered patch is seen only through the touched fields. *)
Lemma registered_patch_frame error patch config config' p :
  ownProperty updateError error = Some patch ->
  patch config = Normal config' ->
  forallb (diverges p) touched = true ->
  readPath p config' = readPath p config.
Proof.
  intros Hreg Hrun Hp. cbn [forallb touched] in Hp.
  repeat (apply andb_true_iff in Hp as [? Hp]).
  destruct (ownProperty_updateError _ _ Hreg) as [[_ ->]|[[_ ->]|[[_ ->]|[_ ->]]]].
  - by eapply assignIn_frame.
  - by eapply assignIn_frame.
  - by eapply assignIn_frame.
  - rewrite patch_turnOnPrinterWhenExitingSleep_direct in Hrun.
    by eapply migrateTurnOn_frame.
Qed.

Lemma applyRegistered_frame errors :
  forall config config' p,
  applyRegistered errors config = Normal config' ->
  forallb (diverges p) touched = true ->
  readPath p config' = readPath p config.
Proof.
  induction errors as [|e errors IH]; intros config config' p Hrun Hp;
    cbn [applyRegistered] in Hrun.
  - by injection Hrun as <-.
  - destruct (ownProperty updateError e) as [patch|] eqn:E; [|by eapply IH].
    destruct (patch config) as [config1|err] eqn:E1; [|done].
    cbn in Hrun. rewrite (IH _ _ _ Hrun Hp).
    by eapply registered_patch_frame.
Qed.

End PatchEffects.

(** ** Repair, order and outcome of a batch *)

Section Batches.

Variable rt : Runtime.

Implicit Types (m props : gmap string JsValue) (k : string) (v : JsValue).

Lemma readPath_two k1 k2 o :
  readPath [k1; k2] o = (target ← getProp o k1; getProp target k2).
Proof.
  cbn. destruct (getProp o k1) as [t|]; [|done]. cbn.
  by destruct (getProp t k2).
Qed.

(** Each patch establishes the field of its key. *)
Lemma registered_patch_repairs error patch config config' :
  ownProperty updateError error = Some patch ->
  patch config = Normal config' ->
  repaired error config' = true.
Proof.
  intros Hreg Hrun.
  destruct (ownProperty_updateError _ _ Hreg) as [[-> ->]|[[-> ->]|[[-> ->]|[-> ->]]]].
  - apply assignIn_read in Hrun. unfold repaired, reads, path_zBabystepGCode.
    rewrite String.eqb_refl, readPath_two, Hrun. done.
  - apply assignIn_read in Hrun. unfold repaired, reads, path_tpLinkSmartPlug.
    replace (String.eqb key_tpLinkSmartPlug key_zBabystepGCode) with false by done.
    rewrite String.eqb_refl, readPath_two, Hrun. done.
  - apply assignIn_read in Hrun. unfold repaired, reads, path_previewProgressCircle.
    replace (String.eqb key_previewProgressCircle key_zBabystepGCode) with false by done.
    replace (String.eqb key_previewProgressCircle key_tpLinkSmartPlug) with false by done.
    rewrite String.eqb_refl, readPath_two, Hrun. done.
  - rewrite patch_turnOnPrinterWhenExitingSleep_direct in Hrun.
    unfold migrateTurnOn in Hrun.
    destruct config as [| | | | |el props]; try done.
    destruct (props !! "octodash") as [[| | | | |eo mo]|] eqn:Eo; try done.
    destruct (props !! "plugins") as [[| | | | |ep mp]|] eqn:Ep; try done.
    destruct (mp !! "psuControl") as [psu|] eqn:Ec; try done.
    destruct (isNullish psu) eqn:Hn; [done|]. injection Hrun as <-.
    unfold repaired, reads, path_turnOnPrinter.
    replace (String.eqb key_turnOnPrinterWhenExitingSleep key_zBabystepGCode)
      with false by done.
    replace (String.eqb key_turnOnPrinterWhenExitingSleep key_tpLinkSmartPlug)
      with false by done.
    replace (String.eqb key_turnOnPrinterWhenExitingSleep key_previewProgressCircle)
      with false by done.
    rewrite String.eqb_refl, readPath_two. cbn [getProp mbind Completion_bind].
    rewrite lookup_insert_ne, lookup_insert_eq by done. cbn.
    rewrite lookup_insert_eq. cbn.
    by destruct (sourceOf psu).
Qed.

(** A field that is in repair stays so under every registered patch. *)
Lemma registered_patch_keeps_repair error error' patch config config' :
  ownProperty updateError error' = Some patch ->
  patch config = Normal config' ->
  repaired error config = true ->
  repaired error config' = true.
Proof.
  intros Hreg Hrun Hrep.
  destruct (String.eqb_spec error error') as [->|Hne];
    [by eapply registered_patch_repairs|].
  assert (Hframe : forall p,
    diverges p (fieldOf error') = true ->
    diverges p path_turnOnPSU = true ->
    readPath p config' = readPath p config).
  { intros p H1 H2.
    destruct (ownProperty_updateError _ _ Hreg) as [[-> ->]|[[-> ->]|[[-> ->]|[-> ->]]]].
    - by eapply assignIn_frame.
    - by eapply assignIn_frame.
    - by eapply assignIn_frame.
    - rewrite patch_turnOnPrinterWhenExitingSleep_direct in Hrun.
      by eapply migrateTurnOn_frame. }
  unfold repaired, reads in *.
  destruct (String.eqb_spec error key_zBabystepGCode) as [->|H1].
  { rewrite Hframe; [done| |done].
    destruct (ownProperty_updateError _ _ Hreg) as [[-> _]|[[-> _]|[[-> _]|[-> _]]]];
      done. }
  destruct (String.eqb_spec error key_tpLinkSmartPlug) as [->|H2].
  { rewrite Hframe; [done| |done].
    destruct (ownProperty_updateError _ _ Hreg) as [[-> _]|[[-> _]|[[-> _]|[-> _]]]];
      done. }
  destruct (String.eqb_spec error key_previewProgressCircle) as [->|H3].
  { rewrite Hframe; [done| |done].
    destruct (ownProperty_updateError _ _ Hreg) as [[-> _]|[[-> _]|[[-> _]|[-> _]]]];
      done. }
  destruct (String.eqb_spec error key_turnOnPrinterWhenExitingSleep) as [->|H4]; [|done].
  rewrite Hframe; [done| |done].
  destruct (ownProperty_updateError _ _ Hreg) as [[-> _]|[[-> _]|[[-> _]|[-> _]]]];
    done.
Qed.

Lemma applyRegistered_keeps_repair error errors :
  forall config config',
  applyRegistered errors config = Normal config' ->
  repaired error config = true ->
  repaired error config' = true.
Proof.
  induction errors as [|e errors IH]; intros config config' Hrun Hrep;
    cbn [applyRegistered] in Hrun.
  - by injection Hrun as <-.
  - destruct (ownProperty updateError e) as [patch|] eqn:E; [|by eapply IH].
    destruct (patch config) as [config1|err] eqn:E1; [|done].
    cbn in Hrun. eapply IH; [exact Hrun|].
    by eapply registered_patch_keeps_repair.
Qed.

Lemma applyRegistered_repairs errors :
  forall config config' error,
  applyRegistered errors config = Normal config' ->
  In error errors ->
  repaired error config' = true.
Proof.
  induction errors as [|e errors IH]; intros config config' error Hrun Hin;
    [done|]. cbn [applyRegistered] in Hrun.
  destruct (ownProperty updateError e) as [patch|] eqn:E.
  - destruct (patch config) as [config1|err] eqn:E1; [|done]. cbn in Hrun.
    destruct Hin as [->|Hin]; [|by eapply IH].
    eapply applyRegistered_keeps_repair; [exact Hrun|].
    by eapply registered_patch_repairs.
  - destruct Hin as [->|Hin]; [|by eapply IH].
    unfold repaired.
    assert (Hk : forall k p, In (k, p) updateError -> String.eqb error k = false).
    { intros k p Hk. destruct (String.eqb_spec error k) as [->|]; [|done].
      exfalso. revert E Hk. unfold updateError. cbn [ownProperty In].
      intros E [[= <- _]|[[= <- _]|[[= <- _]|[[= <- _]|[]]]]]; cbn in E; done. }
    rewrite (Hk key_zBabystepGCode patch_zBabystepGCode),
            (Hk key_tpLinkSmartPlug patch_tpLinkSmartPlug),
            (Hk key_previewProgressCircle patch_previewProgressCircle),
            (Hk key_turnOnPrinterWhenExitingSleep patch_turnOnPrinterWhenExitingSleep);
      cbn; tauto.
Qed.

(** Two nested assignments into different sections commute. *)
Lemma assignIn_commute o k1 k2 v k1' k2' v' :
  k1 ≠ k1' ->
  assignIn o k1 k2 v ≫= (fun o' => assignIn o' k1' k2' v')
  = assignIn o k1' k2' v' ≫= (fun o' => assignIn o' k1 k2 v).
Proof.
  intros Hne. rewrite !assignIn_direct.
  destruct o as [| | | | |el props]; try done.
  destruct (props !! k1) as [[| | | | |e m]|] eqn:E;
    destruct (props !! k1') as [[| | | | |e' m']|] eqn:E';
    cbn [mbind Completion_bind];
    rewrite ?assignIn_direct, ?lookup_insert_ne, ?E, ?E' by done; try done.
  by rewrite insert_insert_ne.
Qed.

(** A nested assignment commutes with the fourth patch when it writes
    neither [octodash.turnOnPrinterWhenExitingSleep] nor
    [plugins.psuControl]. *)
Lemma assignIn_migrateTurnOn_commute o k1 k2 v :
  diverges [k1; k2] path_turnOnPrinter = true ->
  diverges [k1; k2] ["plugins"; "psuControl"] = true ->
  assignIn o k1 k2 v ≫= migrateTurnOn
  = migrateTurnOn o ≫= (fun o' => assignIn o' k1 k2 v).
Proof.
  intros Ho Hp. rewrite assignIn_direct. unfold migrateTurnOn.
  destruct o as [| | | | |el props]; try done.
  cbn [diverges path_turnOnPrinter] in Ho, Hp.
  destruct (String.eqb_spec k1 "octodash") as [->|Hk1o];
    [|destruct (String.eqb_spec k1 "plugins") as [->|Hk1p]].
  - destruct (String.eqb_spec k2 "turnOnPrinterWhenExitingSleep") as [->|Hk2];
      [done|].
    destruct (props !! "octodash") as [[| | | | |eo mo]|] eqn:Eo; try done.
    cbn [mbind Completion_bind]. js_lookup.
    destruct (props !! "plugins") as [[| | | | |ep mp]|] eqn:Ep; try done.
    destruct (mp !! "psuControl") as [psu|] eqn:Ec; try done.
    destruct (isNullish psu); [done|].
    cbn [mbind Completion_bind]. rewrite assignIn_direct. js_lookup.
    do 2 f_equal.
    rewrite insert_insert_eq.
    rewrite (insert_insert_ne _ "octodash" "plugins") by done.
    rewrite insert_insert_eq.
    by rewrite (insert_insert_ne mo k2 "turnOnPrinterWhenExitingSleep").
  - destruct (String.eqb_spec k2 "psuControl") as [->|Hk2]; [done|].
    destruct (props !! "plugins") as [[| | | | |ep mp]|] eqn:Ep;
      try by destruct (props !! "octodash") as [[]|].
    cbn [mbind Completion_bind]. js_lookup.
    destruct (props !! "octodash") as [[| | | | |eo mo]|] eqn:Eo; try done.
    destruct (mp !! "psuControl") as [psu|] eqn:Ec; try done.
    destruct (isNullish psu); [done|].
    cbn [mbind Completion_bind]. rewrite assignIn_direct. js_lookup.
    do 2 f_equal.
    rewrite (insert_insert_ne _ "octodash" "plugins") by done.
    rewrite insert_insert_eq.
    rewrite (insert_insert_ne _ "plugins" "octodash") by done.
    rewrite insert_insert_eq.
    rewrite (insert_insert_ne _ "octodash" "plugins") by done.
    by rewrite (insert_insert_ne mp k2 "psuControl").
  - destruct (props !! k1) as [[| | | | |e m]|] eqn:E;
      destruct (props !! "octodash") as [[| | | | |eo mo]|] eqn:Eo;
      destruct (props !! "plugins") as [[| | | | |ep mp]|] eqn:Ep;
      cbn [mbind Completion_bind]; js_lookup; try done.
    all: destruct (mp !! "psuControl") as [psu|] eqn:Ec; [|by cbn].
    all: destruct (isNullish psu); [by cbn|].
    all: cbn [mbind Completion_bind]; rewrite assignIn_direct; js_lookup; try done.
    do 2 f_equal.
    rewrite (insert_insert_ne _ k1 "plugins") by done.
    by rewrite (insert_insert_ne _ k1 "octodash").
Qed.

Lemma bind_ext {A B} (f g : A -> Completion B) (c : Completion A) :
  (forall a, f a = g a) -> c ≫= f = c ≫= g.
Proof. intros H. destruct c; [apply H|done]. Qed.

(** Any two registered patches commute. *)
Lemma registered_patches_commute e1 p1 e2 p2 config :
  ownProperty updateError e1 = Some p1 ->
  ownProperty updateError e2 = Some p2 ->
  p1 config ≫= p2 = p2 config ≫= p1.
Proof.
  intros H1 H2.
  assert (Hm : forall o k1 k2 v,
    diverges [k1; k2] path_turnOnPrinter = true ->
    diverges [k1; k2] ["plugins"; "psuControl"] = true ->
    assignIn o k1 k2 v ≫= patch_turnOnPrinterWhenExitingSleep
    = patch_turnOnPrinterWhenExitingSleep o ≫= (fun o' => assignIn o' k1 k2 v)).
  { intros o k1 k2 v Ho Hp.
    rewrite patch_turnOnPrinterWhenExitingSleep_direct.
    rewrite <- assignIn_migrateTurnOn_commute by done.
    apply bind_ext, patch_turnOnPrinterWhenExitingSleep_direct. }
  destruct (ownProperty_updateError _ _ H1) as [[_ ->]|[[_ ->]|[[_ ->]|[_ ->]]]];
    destruct (ownProperty_updateError _ _ H2) as [[_ ->]|[[_ ->]|[[_ ->]|[_ ->]]]];
    try reflexivity;
    try (by apply assignIn_commute);
    try (by apply Hm);
    symmetry; by apply Hm.
Qed.

(** The patched configuration does not depend on the order of the batch. *)
Lemma applyRegistered_Permutation errors errors' :
  errors ≡ₚ errors' ->
  forall config, applyRegistered errors config = applyRegistered errors' config.
Proof.
  induction 1 as [|e l l' _ IH|e1 e2 l|l l' l'' _ IH1 _ IH2]; intros config.
  - done.
  - cbn [applyRegistered]. destruct (ownProperty updateError e) as [p|]; [|apply IH].
    apply bind_ext, IH.
  - cbn [applyRegistered].
    destruct (ownProperty updateError e1) as [p1|] eqn:E1;
      destruct (ownProperty updateError e2) as [p2|] eqn:E2; try done.
    pose proof (registered_patches_commute _ _ _ _ config E1 E2) as Hc.
    destruct (p1 config) as [c1|] eqn:R1; destruct (p2 config) as [c2|] eqn:R2;
      cbn in Hc |- *.
    + destruct (p2 c1) as [c12|] eqn:R12; destruct (p1 c2) as [c21|] eqn:R21;
        cbn; try done. by injection Hc as ->.
    + by rewrite Hc.
    + by rewrite <- Hc.
    + done.
  - by rewrite IH1.
Qed.

(** An identifier of the validator's form is found by [_.hasIn] exactly
    when it is a key of the registry. *)
Lemma hasIn_validatorForm error :
  validatorForm error = true ->
  hasIn rt error = includes (keys updateError) error.
Proof.
  destruct error as [|c error]; [done|]. cbn [validatorForm].
  intros [Hc|Hc]%orb_true_iff; apply Ascii.eqb_eq in Hc; subst c.
  - rewrite ownProperty_keys. unfold hasIn, lookupMember.
    by destruct (ownProperty updateError (String "." error)).
  - reflexivity.
Qed.

(** On identifiers of the validator's form the loop amounts to the
    registered patches of the batch. *)
Lemma fixUpdateErrors_outcome current errors :
  forallb validatorForm errors = true ->
  fixUpdateErrors rt current errors = outcomeOf errors current.
Proof.
  intros Hform. unfold fixUpdateErrors, outcomeOf.
  rewrite forErrors_regular.
  - by destruct (applyRegistered errors current).
  - apply Forall_forall. intros e He.
    rewrite forallb_forall in Hform. apply list_elem_of_In, Hform in He.
    rewrite (hasIn_validatorForm e He).
    destruct (includes (keys updateError) e); auto.
Qed.

(** Whenever the loop completes, on any batch, the configuration it leaves
    is the one the registered patches of the batch produce. *)
Lemma forErrors_applyRegistered errors :
  forall config flag config' flag',
  forErrors rt errors config flag = Normal (config', flag') ->
  applyRegistered errors config = Normal config'.
Proof.
  induction errors as [|e errors IH]; intros config flag config' flag' H;
    cbn [forErrors applyRegistered] in *.
  - by injection H as <- _.
  - unfold hasIn, lookupMember in H.
    destruct (ownProperty updateError e) as [p|] eqn:E.
    + cbn in H. destruct (p config) as [c1|]; [|done]. cbn in *. by eapply IH.
    + destruct (inherited ObjectPrototype e) as [[]|] eqn:Ei; cbn in H.
      * by eapply IH.
      * destruct (keyCoercionThrows rt config); [done|]. by eapply IH.
      * done.
      * done.
      * destruct (match headKey e with
                  | Some k => _
                  | None => _
                  end); [done|]. by eapply IH.
Qed.

Lemma fixUpdateErrors_saved current errors flag config' :
  fixUpdateErrors rt current errors
  = {| completion := Normal flag;
       storeCalls := [GetCurrentConfig; SaveConfig config'] |} ->
  applyRegistered errors current = Normal config'.
Proof.
  unfold fixUpdateErrors.
  destruct (forErrors rt errors current true) as [[c f]|] eqn:E; [|done].
  intros [= _ <-]. by eapply forErrors_applyRegistered.
Qed.

End Batches.
(** ** Batches: what a caller can rely on *)

Section BatchGuarantees.

Variable rt : Runtime.

(** X1: on a batch of identifiers of the validator's form (each starts
    with a dot or a space), [fixUpdateErrors] reads the configuration once
    and then either saves, once, the configuration patched by the
    registered patches of the batch in order, returning whether every
    identifier is a key of the registry, or throws what a patch threw,
    without saving. *)
Theorem validator_batch_outcome current errors :
  forallb validatorForm errors = true ->
  fixUpdateErrors rt current errors
  = match applyRegistered errors current with
    | Normal config' =>
        {| completion := Normal (forallb (includes (keys updateError)) errors);
           storeCalls := [GetCurrentConfig; SaveConfig config'] |}
    | Throw e => {| completion := Throw e; storeCalls := [GetCurrentConfig] |}
    end.
Proof. apply fixUpdateErrors_outcome. Qed.

(** X2: when [fixUpdateErrors] returns, on any batch, the saved
    configuration holds the field of every registered identifier of the
    batch: the three constants, and for
    [turnOnPrinterWhenExitingSleep] a value that is neither [undefined]
    nor [null]. *)
Theorem completed_fix_repairs current errors flag config' error :
  fixUpdateErrors rt current errors
  = {| completion := Normal flag;
       storeCalls := [GetCurrentConfig; SaveConfig config'] |} ->
  error ∈ errors ->
  repaired error config' = true.
Proof.
  intros Hrun Hin. apply fixUpdateErrors_saved in Hrun.
  eapply applyRegistered_repairs; [exact Hrun|]. by apply list_elem_of_In.
Qed.

Lemma outcomeOf_Permutation errors errors' current :
  errors ≡ₚ errors' -> outcomeOf errors current = outcomeOf errors' current.
Proof.
  intros Hp. unfold outcomeOf.
  rewrite (applyRegistered_Permutation _ _ Hp).
  destruct (applyRegistered errors' current); [|done].
  do 2 f_equal.
  apply eq_true_iff_eq. rewrite !forallb_forall.
  split; intros H x Hx; apply H; [by rewrite Hp|by rewrite <- Hp].
Qed.

(** X3: on identifiers of the validator's form the order of the batch is
    immaterial: two batches with the same identifiers, each as often, give
    the same result, the same saved configuration, or the same exception. *)
Theorem batch_order_irrelevant current errors errors' :
  forallb validatorForm errors = true ->
  errors ≡ₚ errors' ->
  fixUpdateErrors rt current errors = fixUpdateErrors rt current errors'.
Proof.
  intros Hform Hp.
  rewrite !fixUpdateErrors_outcome; [by apply outcomeOf_Permutation| |done].
  rewrite forallb_forall in Hform |- *. intros x Hx. apply Hform. by rewrite Hp.
Qed.

(** X4: when [fixUpdateErrors] returns, on any batch, the saved
    configuration reads as the one obtained from the store along every
    path that parts ways with the five fields the patches write or
    delete. *)
Theorem completed_fix_touches_only current errors flag config' path :
  fixUpdateErrors rt current errors
  = {| completion := Normal flag;
       storeCalls := [GetCurrentConfig; SaveConfig config'] |} ->
  forallb (diverges path) touched = true ->
  readPath path config' = readPath path current.
Proof.
  intros Hrun Hpath. apply fixUpdateErrors_saved in Hrun.
  by eapply applyRegistered_frame.
Qed.

(** X5: the patches for [zBabystepGCode], [tpLinkSmartPlug] and
    [previewProgressCircle] complete exactly when the section they assign
    into ([printer], [plugins], [octodash]) is an object, and throw
    otherwise; the patch for [turnOnPrinterWhenExitingSleep] completes
    exactly when [octodash] is an object and [plugins.psuControl] is
    present and not [null]. *)
Theorem patches_complete_when config :
  completes (patch_zBabystepGCode config) = reads isObject ["printer"] config
  /\ completes (patch_tpLinkSmartPlug config) = reads isObject ["plugins"] config
  /\ completes (patch_previewProgressCircle config) = reads isObject ["octodash"] config
  /\ completes (patch_turnOnPrinterWhenExitingSleep config)
     = reads isObject ["octodash"] config
       && reads (fun v => negb (isNullish v)) ["plugins"; "psuControl"] config.
Proof.
  assert (Ha : forall k1 k2 v,
    completes (assignIn config k1 k2 v) = reads isObject [k1] config).
  { intros k1 k2 v. rewrite assignIn_direct. unfold reads.
    destruct config as [| | | | |el props]; try done. cbn.
    by destruct (props !! k1) as [[]|]. }
  split; [apply Ha|]. split; [apply Ha|]. split; [apply Ha|].
  rewrite patch_turnOnPrinterWhenExitingSleep_direct. unfold migrateTurnOn, reads.
  destruct config as [| | | | |el props]; try done. cbn.
  destruct (props !! "octodash") as [[| | | | |eo mo]|];
    destruct (props !! "plugins") as [[| | | | |ep mp]|]; cbn; try done.
  destruct (mp !! "psuControl") as [psu|]; cbn; [|done].
  by destruct (isNullish psu).
Qed.

Lemma hasUpdateError_false errors :
  hasUpdateError errors = false ->
  forall e, In e errors -> includes (keys updateError) e = false.
Proof.
  unfold hasUpdateError, intersection. intros H e He.
  destruct (includes (keys updateError) e) eqn:Hk; [|done].
  apply Nat.ltb_ge in H. apply includes_In in Hk.
  assert (0 < length (baseIntersection errors (keys updateError) []))%nat; [|lia].
  apply baseIntersection_nonempty. right. by exists e.
Qed.

Lemma applyRegistered_unknown errors config :
  (forall e, In e errors -> includes (keys updateError) e = false) ->
  applyRegistered errors config = Normal config
  /\ forallb (includes (keys updateError)) errors
     = match errors with [] => true | _ => false end.
Proof.
  induction errors as [|e errors IH]; intros H; [done|].
  cbn [applyRegistered forallb].
  pose proof (H e (or_introl eq_refl)) as He. rewrite He.
  rewrite ownProperty_keys in He.
  destruct (ownProperty updateError e) as [p|].
  - by rewrite bool_decide_eq_true_2 in He by (by eexists).
  - split; [|done]. apply IH. intros e' He'. apply H. by right.
Qed.

(** X6: when [hasUpdateError] finds nothing in a batch of the validator's
    form, [fixUpdateErrors] on that batch patches nothing: it saves the
    configuration it read, unchanged, and returns [false], or [true] on the
    empty batch. *)
Theorem nothing_known_saves_unchanged current errors :
  forallb validatorForm errors = true ->
  hasUpdateError errors = false ->
  fixUpdateErrors rt current errors
  = {| completion := Normal match errors with [] => true | _ => false end;
       storeCalls := [GetCurrentConfig; SaveConfig current] |}.
Proof.
  intros Hform Hnone. rewrite fixUpdateErrors_outcome by done. unfold outcomeOf.
  destruct (applyRegistered_unknown errors current (hasUpdateError_false _ Hnone))
    as [-> ->].
  done.
Qed.

(** X7: when the patch for [turnOnPrinterWhenExitingSleep] completes,
    [octodash.turnOnPrinterWhenExitingSleep] holds what
    [plugins.psuControl.turnOnPSUWhenExitingSleep] held before, or [false]
    if that was [undefined] or [null], and the source field reads
    [undefined] afterwards. *)
Theorem turnOnPrinter_patch_migrates config config' :
  patch_turnOnPrinterWhenExitingSleep config = Normal config' ->
  exists source,
    readPath path_turnOnPSU config = Normal source
    /\ readPath path_turnOnPrinter config'
       = Normal (nullish source (JsBoolean false))
    /\ readPath path_turnOnPSU config' = Normal JsUndefined.
Proof.
  rewrite patch_turnOnPrinterWhenExitingSleep_direct. unfold migrateTurnOn.
  destruct config as [| | | | |el props]; try done.
  destruct (props !! "octodash") as [[| | | | |eo mo]|] eqn:Eo; try done.
  destruct (props !! "plugins") as [[| | | | |ep mp]|] eqn:Ep; try done.
  destruct (mp !! "psuControl") as [psu|] eqn:Ec; try done.
  destruct (isNullish psu) eqn:Hn; [done|]. intros [= <-].
  exists (sourceOf psu). unfold path_turnOnPSU, path_turnOnPrinter.
  cbn [readPath getProp mbind Completion_bind].
  rewrite Ep. cbn. rewrite Ec. cbn. js_lookup. cbn. js_lookup. cbn.
  destruct psu as [| | | | |ec mc]; try done.
  cbn. by rewrite lookup_delete_eq.
Qed.

End BatchGuarantees.

(** ** The service over a whole run *)

Section Runs.

Variable rt : Runtime.

(** A property kept by every step is kept by every run. *)
Lemma run_invariant (P : World -> Prop) :
  (forall ev w w', step rt ev w = Some w' -> P w -> P w') ->
  forall evs w w', run rt evs w = Some w' -> P w -> P w'.
Proof.
  intros Hstep. induction evs as [|ev evs IH]; cbn; intros w w' H Hw.
  - by injection H as <-.
  - destruct (step rt ev w) as [w1|] eqn:E; [|done]. eauto.
Qed.

Lemma run_cons ev evs w w' :
  run rt (ev :: evs) w = Some w' <->
  exists w1, step rt ev w = Some w1 /\ run rt evs w1 = Some w'.
Proof.
  cbn. destruct (step rt ev w) as [w1|]; [|by split; [|intros (? & ? & ?)]].
  split; [by exists w1|]. by intros (? & [= <-] & ?).
Qed.

(** Splits a step into the cases of its event, each with the world it
    produces. *)
Ltac step_cases H :=
  match type of H with
  | step _ ?ev ?w = Some _ =>
      destruct ev; cbn [step] in H;
      try (destruct (requests w) eqn:?; [discriminate H|]);
      try (match type of H with context [0 <=? ?ms] =>
             destruct (Z.leb_spec 0 ms); [|discriminate H] end);
      try (destruct (timers w) as [|?due ?rest] eqn:?; [discriminate H|];
           match type of H with context [?d <=? clock w] =>
             destruct (Z.leb_spec d (clock w)); [|discriminate H] end);
      injection H as <-
  end.

Lemma run_getters evs :
  forall w w',
  run rt evs w = Some w' ->
  version (svc w') = lastAnnounced evs (version (svc w))
  /\ latestVersion (svc w')
     = match lastRelease evs None with
       | Some data => Some (replace "v" "" (name data))
       | None => latestVersion (svc w)
       end
  /\ latestVersionAssetsURL (svc w')
     = match lastRelease evs None with
       | Some data => Some (assets_url data)
       | None => latestVersionAssetsURL (svc w)
       end
  /\ loadedFile (svc w') = lastLoadedFile evs (loadedFile (svc w)).
Proof.
  assert (Hlast : forall evs d, lastRelease evs (Some d) =
            Some (default d (lastRelease evs None))).
  { clear. induction evs as [|[] evs IH]; intros d; cbn; try done.
    rewrite (IH data). by destruct (lastRelease evs None). }
  induction evs as [|ev evs IH]; intros w w' H.
  - cbn in H. by injection H as <-.
  - apply run_cons in H as (w1 & Hstep & Hrun).
    destruct (IH _ _ Hrun) as (Hv & Hl & Hu & Hf).
    rewrite Hv, Hl, Hu, Hf. clear IH Hrun Hv Hl Hu Hf.
    step_cases Hstep; cbn [lastAnnounced lastRelease lastLoadedFile]; try done.
    rewrite Hlast. cbn [svc].
    assert (Hn : forall a, latestVersion (onNext data a) = Some (replace "v" "" (name data))
                      /\ latestVersionAssetsURL (onNext data a) = Some (assets_url data)
                      /\ version (onNext data a) = version a
                      /\ loadedFile (onNext data a) = loadedFile a).
    { intros a. unfold onNext. by destruct (strictNeq _ _). }
    destruct (Hn (svc w)) as (-> & -> & -> & ->).
    by destruct (lastRelease evs None).
Qed.

Lemma run_logs evs :
  forall w w',
  run rt evs w = Some w' ->
  notifications w'
  = (notifications w
     ++ map (fun e => ("Can't load custom styles!", e)) (customStylesErrors evs))%list
  /\ styles w' = (styles w ++ customStyles evs)%list
  /\ ipcSent w' = (ipcSent w ++ displayCommands evs)%list.
Proof.
  induction evs as [|ev evs IH]; intros w w' H.
  - cbn in H. injection H as <-. cbn. by rewrite !app_nil_r.
  - apply run_cons in H as (w1 & Hstep & Hrun).
    destruct (IH _ _ Hrun) as (Hn & Hs & Hi). rewrite Hn, Hs, Hi.
    clear IH Hrun Hn Hs Hi.
    step_cases Hstep; cbn; rewrite <- ?app_assoc; done.
Qed.

Lemma fixUpdateErrors_store current errors :
  gets (storeCalls (fixUpdateErrors rt current errors)) = 1%nat
  /\ (saves (storeCalls (fixUpdateErrors rt current errors)) <= 1)%nat
  /\ (saves (storeCalls (fixUpdateErrors rt current errors)) = 1%nat
      <-> completes (completion (fixUpdateErrors rt current errors)) = true).
Proof.
  unfold fixUpdateErrors.
  destruct (forErrors rt errors current true) as [[c f]|]; cbn;
    repeat split; intros; try done; try lia.
Qed.

Lemma step_store ev w w' :
  step rt ev w = Some w' ->
  store w'
  = (store w ++ match ev with
                | CallFixUpdateErrors current errors =>
                    storeCalls (fixUpdateErrors rt current errors)
                | _ => []
                end)%list.
Proof.
  intros Hstep.
  step_cases Hstep; cbn; by rewrite ?app_nil_r.
Qed.

Lemma run_store evs :
  forall w w',
  run rt evs w = Some w' ->
  gets (store w') = (gets (store w) + fixCalls evs)%nat
  /\ (saves (store w') <= saves (store w) + fixCalls evs)%nat.
Proof.
  induction evs as [|ev evs IH]; intros w w' H.
  - cbn in H. injection H as <-. cbn. lia.
  - apply run_cons in H as (w1 & Hstep & Hrun).
    destruct (IH _ _ Hrun) as (Hg & Hs). rewrite Hg. clear IH Hrun Hg.
    apply step_store in Hstep. rewrite Hstep in *. clear Hstep.
    unfold gets, saves, fixCalls in *.
    rewrite !List.filter_app, !length_app in *.
    destruct ev; cbn [List.filter length] in *; try lia.
    destruct (fixUpdateErrors_store current errors) as (Hg1 & Hs1 & _).
    unfold gets, saves in *. lia.
Qed.

Lemma step_quiet ev w w' : step rt ev w = Some w' -> quiet w -> quiet w'.
Proof.
  unfold quiet. intros Hstep Hw.
  step_cases Hstep; cbn; try done.
  - intros Hv. assert (version (svc w) = None) as Hv0.
    { revert Hv. unfold onNext. by destruct (strictNeq _ _). }
    destruct (Hw Hv0) as (? & _). lia.
  - intros Hv. destruct (Hw Hv) as (? & _). lia.
  - intros Hv. destruct (Hw Hv) as (_ & ? & _). congruence.
Qed.

Lemma step_timers_length ev w w' :
  step rt ev w = Some w' ->
  length (timers w') = (length (timers w) + if isAnnouncement ev then 1 else 0)%nat.
Proof.
  intros Hstep. step_cases Hstep; cbn; rewrite ?length_app; cbn; lia.
Qed.

Lemma run_timers_length evs :
  forall w w',
  run rt evs w = Some w' ->
  length (timers w') = (length (timers w) + announcements evs)%nat.
Proof.
  induction evs as [|ev evs IH]; intros w w' H.
  - cbn in H. injection H as <-. cbn. lia.
  - apply run_cons in H as (w1 & Hstep & Hrun).
    rewrite (IH _ _ Hrun), (step_timers_length _ _ _ Hstep).
    unfold announcements. cbn [List.filter].
    destruct (isAnnouncement ev); cbn; lia.
Qed.

Lemma step_coherent ev w w' :
  step rt ev w = Some w' -> coherent (svc w) -> coherent (svc w').
Proof.
  unfold coherent. intros Hstep Hw.
  step_cases Hstep; cbn; done.
Qed.

Lemma step_scheduled ev w w' :
  step rt ev w = Some w' -> scheduled w -> scheduled w'.
Proof.
  assert (Hsnoc : forall l x,
    ascending l -> Forall (fun y => y <= x) l -> ascending (l ++ [x])).
  { induction l as [|y l IH]; cbn; intros x Ha Hb; [done|].
    destruct Ha as [Hy Ha]. apply Forall_cons in Hb as [Hyx Hb].
    split; [|by apply IH].
    apply Forall_app. split; [done|]. by apply Forall_singleton. }
  assert (Hmono : forall l (x y : Z),
    x <= y -> Forall (fun d => d <= x) l -> Forall (fun d => d <= y) l).
  { intros l x y Hxy H. eapply Forall_impl; [exact H|]. cbn. intros d. lia. }
  unfold scheduled. intros Hstep [Ha Hb].
  step_cases Hstep; cbn; try done.
  - split; [by apply Hsnoc|].
    apply Forall_app. split; [done|]. by apply Forall_singleton.
  - split; [done|]. eapply Hmono; [|exact Hb]. lia.
  - cbn in Ha. destruct Ha as [_ Ha]. apply Forall_cons in Hb as [_ Hb].
    split; [by apply Hsnoc|].
    apply Forall_app. split; [done|]. by apply Forall_singleton.
Qed.

Lemma step_clock ev w w' : step rt ev w = Some w' -> clock w <= clock w'.
Proof. intros Hstep. step_cases Hstep; cbn; lia. Qed.

Lemma run_paced t0 evs :
  forall w w' k a,
  run rt evs w = Some w' ->
  (a + announcements evs <= 1)%nat ->
  paced t0 k a w ->
  paced t0 (k + polls evs) (a + announcements evs) w'.
Proof.
  induction evs as [|ev evs IH]; intros w w' k a H Hn Hp.
  - cbn in H. injection H as <-. unfold polls, announcements. cbn.
    by rewrite !Nat.add_0_r.
  - apply run_cons in H as (w1 & Hstep & Hrun).
    unfold polls, announcements in *. cbn [List.filter] in *.
    destruct (isAnnouncement ev) eqn:Ea; cbn [orb length] in *.
    + destruct ev; try done. cbn [step] in Hstep. injection Hstep as <-.
      replace (k + S _)%nat with (S k + length
        (List.filter (fun ev => isAnnouncement ev || isTimerFiring ev) evs))%nat by lia.
      replace (a + S _)%nat with (S a + length (List.filter isAnnouncement evs))%nat
        by lia.
      apply (IH _ _ _ _ Hrun); [lia|].
      destruct a; [|lia]. destruct Hp as (Ht & -> & Htm).
      split; [done|]. cbn. rewrite Htm. eexists. split; [done|]. lia.
    + destruct (isTimerFiring ev) eqn:Ef; cbn [length] in *.
      * destruct ev; try done. cbn [step] in Hstep.
        destruct (timers w) as [|due rest] eqn:Et; [done|].
        destruct (Z.leb_spec due (clock w)); [|done]. injection Hstep as <-.
        replace (k + S _)%nat with (S k + length
          (List.filter (fun ev => isAnnouncement ev || isTimerFiring ev) evs))%nat by lia.
        apply (IH _ _ _ _ Hrun); [lia|].
        destruct Hp as (Ht & Hp).
        destruct a as [|a]; [destruct Hp as [_ Hp]; congruence|].
        destruct Hp as (due' & Hd' & Hd & Hc).
        rewrite Et in Hd'. injection Hd' as <- ->.
        split; [done|]. cbn. eexists. split; [done|]. lia.
      * apply (IH _ _ _ _ Hrun); [lia|].
        pose proof (step_clock _ _ _ Hstep) as Hc.
        assert (timers w1 = timers w) as Htm.
        { step_cases Hstep; try done. }
        destruct Hp as (Ht & Hp). split; [lia|]. rewrite Htm.
        destruct a; [done|]. destruct Hp as (due & ? & ? & ?).
        exists due. repeat split; try done; lia.
Qed.

End Runs.

(** ** Runs from the constructor: what a user of the service can rely on *)

Section Sessions.

Variable rt : Runtime.

(** X8: after any run, [getVersion] returns the version of the last
    [versionInformation] event, [getLatestVersion] and
    [getLatestVersionAssetsURL] return the name (first [v] removed) and the
    asset URL of the last successful poll, and [getLoadedFile] returns the
    argument of the last [setLoadedFile]; each is [undefined] (for the
    flag: [false]) while there was none.  No other event changes them. *)
Theorem getters_follow_history t0 evs w :
  run rt evs (construct t0) = Some w ->
  getVersion (svc w) = lastAnnounced evs None
  /\ getLatestVersion (svc w)
     = (fun data => replace "v" "" (name data)) <$> lastRelease evs None
  /\ getLatestVersionAssetsURL (svc w) = assets_url <$> lastRelease evs None
  /\ getLoadedFile (svc w) = lastLoadedFile evs false.
Proof.
  intros H. destruct (run_getters rt evs _ _ H) as (Hv & Hl & Hu & Hf).
  unfold getVersion, getLatestVersion, getLatestVersionAssetsURL, getLoadedFile.
  rewrite Hv, Hl, Hu, Hf. by destruct (lastRelease evs None).
Qed.

(** X9: as long as no version was announced, no request is in flight, no
    timer is pending, no release is known and [updateAvailable] is
    [false]: polling starts with the announcement only. *)
Theorem quiet_before_announcement t0 evs w :
  run rt evs (construct t0) = Some w ->
  version (svc w) = None ->
  requests w = 0%nat /\ timers w = [] /\ latestVersion (svc w) = None
  /\ latestVersionAssetsURL (svc w) = None /\ updateAvailable (svc w) = false.
Proof.
  intros H.
  apply (run_invariant rt quiet (step_quiet rt) evs _ _ H). by intros _.
Qed.

(** X10: the number of pending [checkUpdate] timers always equals the
    number of [versionInformation] events received: every announcement
    starts a polling loop of its own, and no loop ever ends. *)
Theorem one_loop_per_announcement t0 evs w :
  run rt evs (construct t0) = Some w ->
  length (timers w) = announcements evs.
Proof. intros H. by rewrite (run_timers_length rt evs _ _ H). Qed.

(** X11: [latestVersion] and [latestVersionAssetsURL] are always set
    together, and [updateAvailable] is [true] only once they are set. *)
Theorem release_fields_coherent t0 evs w :
  run rt evs (construct t0) = Some w ->
  (latestVersion (svc w) = None <-> latestVersionAssetsURL (svc w) = None)
  /\ (updateAvailable (svc w) = true -> latestVersion (svc w) <> None).
Proof.
  intros H.
  apply (run_invariant rt (fun w => coherent (svc w)) (step_coherent rt) evs _ _ H).
  by split.
Qed.

(** X12: the notifications raised are exactly the [customStylesError]
    payloads, in order, each under the title "Can't load custom styles!",
    and the style elements appended are exactly the [customStyles]
    payloads, in order; no other event notifies or adds a style. *)
Theorem custom_css_listener_logs t0 evs w :
  run rt evs (construct t0) = Some w ->
  notifications w
  = map (fun e => ("Can't load custom styles!", e)) (customStylesErrors evs)
  /\ styles w = customStyles evs.
Proof. intros H. by destruct (run_logs rt evs _ _ H) as (-> & -> & _). Qed.

(** X13: what the service sends on the IPC channel is [appInfo], once, from
    the constructor, followed by one [screenSleep] per [turnDisplayOff] and
    one [screenWakeup] per [turnDisplayOn], in call order, and nothing
    else. *)
Theorem ipc_commands_sent t0 evs w :
  run rt evs (construct t0) = Some w ->
  ipcSent w = "appInfo" :: displayCommands evs.
Proof. intros H. by destruct (run_logs rt evs _ _ H) as (_ & _ & ->). Qed.

(** X14: [getCurrentConfig] is called exactly once per call of
    [fixUpdateErrors], and [saveConfig] at most once per call; the
    listeners, the poll and its timers, [setLoadedFile] and the display
    methods call neither.  (The filament converters, which read
    [getFilamentThickness] and [getFilamentDensity], are outside this
    statement.) *)
Theorem store_reads_and_saves t0 evs w :
  run rt evs (construct t0) = Some w ->
  gets (store w) = fixCalls evs /\ (saves (store w) <= fixCalls evs)%nat.
Proof.
  intros H. destruct (run_store rt evs _ _ H) as (Hg & Hs).
  by rewrite Hg.
Qed.

(** X15: the pending timers are always in the order in which they come
    due, so the oldest is the next to fire, and none is due later than one
    hour from the current time. *)
Theorem timers_in_due_order t0 evs w :
  run rt evs (construct t0) = Some w ->
  ascending (timers w)
  /\ Forall (fun due => due <= clock w + 3600000) (timers w).
Proof.
  intros H.
  apply (run_invariant rt scheduled (step_scheduled rt) evs _ _ H).
  by split.
Qed.

(** X16: with a single version announcement the service polls at most once
    per hour: when [checkUpdate] has been invoked [k] times, at least
    [k - 1] hours have passed since the constructor ran. *)
Theorem one_poll_per_hour t0 evs w :
  run rt evs (construct t0) = Some w ->
  (announcements evs <= 1)%nat ->
  (Z.of_nat (polls evs) - 1) * 3600000 <= clock w - t0.
Proof.
  intros H Hn.
  assert (Hp : paced t0 0 0 (construct t0)) by (split; [cbn; lia|done]).
  pose proof (run_paced rt t0 evs _ _ 0%nat 0%nat H Hn Hp) as [Hc Hk].
  cbn [Nat.add] in Hk.
  destruct (announcements evs) eqn:Ea.
  - destruct Hk as [-> _]. lia.
  - destruct Hk as (due & _ & _ & Hk). lia.
Qed.

End Sessions.

(** ** Dates *)

Section DateStrings.

Lemma length_append (a b : string) :
  String.length (a +:+ b) = (String.length a + String.length b)%nat.
Proof.
  induction a as [|c a IH]; [done|].
  change (String c a +:+ b) with (String c (a +:+ b)). cbn. by rewrite IH.
Qed.

Lemma substring_append_r (a b : string) n m :
  String.substring (String.length a + n) m (a +:+ b) = String.substring n m b.
Proof.
  induction a as [|c a IH]; [done|].
  change (String c a +:+ b) with (String c (a +:+ b)). cbn. apply IH.
Qed.

Lemma substring_append_l (a b : string) :
  String.substring 0 (String.length a) (a +:+ b) = a.
Proof.
  induction a as [|c a IH]; [by destruct b|].
  change (String c a +:+ b) with (String c (a +:+ b)). cbn. by rewrite IH.
Qed.

Lemma parseInteger_numberToString z :
  parseInteger (numberToString (Some z)) = Some z.
Proof.
  unfold parseInteger, numberToString.
  rewrite NilZero.isi.
  - cbn. by rewrite DecimalZ.of_to.
  - destruct z; cbn; try done.
    intros [= H]. by apply DecimalPos.Unsigned.to_uint_nonnil in H.
  - destruct z; cbn; try done.
    intros [= H]. by apply DecimalPos.Unsigned.to_uint_nonnil in H.
Qed.

(** A number of at most two digits is padded to exactly two characters,
    which read back as the number. *)
Lemma pad2_two n :
  0 <= n <= 99 ->
  exists a b,
    pad2 (Some n) = String a (String b "")
    /\ parseInteger (String a (String b "")) = Some n.
Proof.
  intros Hn.
  assert (Hall : forallb (fun k =>
            match pad2 (Some k) with
            | String a (String b EmptyString) =>
                match parseInteger (String a (String b "")) with
                | Some m => m =? k
                | None => false
                end
            | _ => false
            end) (seqZ 0 100) = true) by (vm_compute; reflexivity).
  rewrite forallb_forall in Hall.
  assert (Hin : In n (seqZ 0 100)) by (apply list_elem_of_In, elem_of_seqZ; lia).
  specialize (Hall n Hin).
  destruct (pad2 (Some n)) as [|a [|b [|]]]; try done.
  exists a, b. split; [done|].
  destruct (parseInteger (String a (String b ""))) as [m|]; [|done].
  by apply Z.eqb_eq in Hall as ->.
Qed.

(** The shape of the result for a valid date: three groups of two digits
    around the year. *)
Lemma convertDateToString_parse t :
  inRange t ->
  parseDateString (convertDateToString (ValidDate t)) = Some t
  /\ String.length (convertDateToString (ValidDate t))
     = (15 + String.length (numberToString (Some (fullYear t))))%nat.
Proof.
  intros (Hd & Hm & Hh & Hmi & Hs).
  destruct (pad2_two (day t)) as (d1 & d2 & Ed & Pd); [lia|].
  destruct (pad2_two (month t + 1)) as (m1 & m2 & Em & Pm); [lia|].
  destruct (pad2_two (hours t)) as (h1 & h2 & Eh & Ph); [lia|].
  destruct (pad2_two (minutes t)) as (i1 & i2 & Ei & Pi); [lia|].
  destruct (pad2_two (seconds t)) as (s1 & s2 & Es & Ps); [lia|].
  set (y := numberToString (Some (fullYear t))).
  set (p := String d1 (String d2 (String "." (String m1 (String m2 "."))))).
  set (q := String " " (String h1 (String h2 (String ":"
             (String i1 (String i2 (String ":" (String s1 (String s2 ""))))))))).
  assert (E : convertDateToString (ValidDate t) = p +:+ y +:+ q).
  { unfold convertDateToString, getDate, getMonth, getFullYear, getHours,
      getMinutes, getSeconds, getter, plusOne. cbn [fmap option_fmap option_map].
    rewrite Ed, Em, Eh, Ei, Es. reflexivity. }
  rewrite E.
  assert (Hlen : String.length (p +:+ y +:+ q) = (6 + String.length y + 9)%nat).
  { rewrite !length_append. reflexivity. }
  split; [|rewrite Hlen; lia].
  unfold parseDateString. rewrite Hlen.
  assert (Hq : forall n m,
    String.substring (6 + String.length y + n) m (p +:+ y +:+ q)
    = String.substring n m q).
  { intros n m.
    replace (6 + String.length y + n)%nat
      with (String.length p + (String.length y + n))%nat by (cbn; lia).
    by rewrite !substring_append_r. }
  replace (6 + String.length y + 9 - 9)%nat with (6 + String.length y + 0)%nat by lia.
  replace (6 + String.length y + 9 - 6)%nat with (6 + String.length y + 3)%nat by lia.
  replace (6 + String.length y + 9 - 3)%nat with (6 + String.length y + 6)%nat by lia.
  replace (6 + String.length y + 9 - 8)%nat with (6 + String.length y + 1)%nat by lia.
  replace (6 + String.length y + 9 - 5)%nat with (6 + String.length y + 4)%nat by lia.
  replace (6 + String.length y + 9 - 2)%nat with (6 + String.length y + 7)%nat by lia.
  replace (6 + String.length y + 9 - 15)%nat with (String.length y) by lia.
  rewrite !Hq.
  assert (Hy : String.substring 6 (String.length y) (p +:+ y +:+ q) = y).
  { change 6%nat with (String.length p + 0)%nat.
    rewrite substring_append_r. apply substring_append_l. }
  rewrite Hy.
  change (String.substring 2 1 (p +:+ y +:+ q)) with ".".
  change (String.substring 5 1 (p +:+ y +:+ q))
    with (String "." (String.substring 0 0 (y +:+ q))).
  replace (String.substring 0 0 (y +:+ q)) with "" by (by destruct (y +:+ q)).
  change (String.substring 0 2 (p +:+ y +:+ q)) with (String d1 (String d2 "")).
  change (String.substring 3 2 (p +:+ y +:+ q)) with (String m1 (String m2 "")).
  change (String.substring 0 1 q) with " ".
  change (String.substring 3 1 q) with ":".
  change (String.substring 6 1 q) with ":".
  change (String.substring 1 2 q) with (String h1 (String h2 "")).
  change (String.substring 4 2 q) with (String i1 (String i2 "")).
  change (String.substring 7 2 q) with (String s1 (String s2 "")).
  rewrite Pd, Pm, Ph, Pi, Ps. unfold y. rewrite parseInteger_numberToString.
  cbn. replace (month t + 1 - 1) with (month t) by lia.
  by destruct t.
Qed.

(** X17: for every valid date, the string that [convertDateToString]
    returns reads back, as [DD.MM.Y HH:MM:SS], into the same day, month,
    year, hours, minutes and seconds; so different local times never share
    a string. *)
Theorem date_string_round_trip t :
  inRange t ->
  parseDateString (convertDateToString (ValidDate t)) = Some t.
Proof. intros H. by destruct (convertDateToString_parse t H). Qed.

Lemma year_four_digits y :
  1000 <= y <= 9999 -> String.length (numberToString (Some y)) = 4%nat.
Proof.
  intros Hy.
  assert (Hall : forallb (fun k =>
            Nat.eqb (String.length (numberToString (Some k))) 4) (seqZ 1000 9000)
          = true) by (vm_compute; reflexivity).
  rewrite forallb_forall in Hall. apply Nat.eqb_eq, Hall.
  apply list_elem_of_In, elem_of_seqZ. lia.
Qed.

(** X18: day, month, hours, minutes and seconds are always written with
    two digits, the year as it is: the string has fifteen characters plus
    the year, hence nineteen for every valid date in the years 1000 to
    9999. *)
Theorem date_string_width t :
  inRange t ->
  String.length (convertDateToString (ValidDate t))
  = (15 + String.length (numberToString (Some (fullYear t))))%nat
  /\ (1000 <= fullYear t <= 9999 ->
      String.length (convertDateToString (ValidDate t)) = 19%nat).
Proof.
  intros H. destruct (convertDateToString_parse t H) as [_ Hlen].
  split; [done|]. intros Hy. by rewrite Hlen, year_four_digits.
Qed.

End DateStrings.

(** ** The further properties at concrete inputs *)

(** [validator_batch_outcome] on [mixedBatch]. *)
Lemma validator_batch_outcome_witness :
  fixUpdateErrors plainRuntime emptyConfig mixedBatch
  = {| completion := Normal false;
       storeCalls := [GetCurrentConfig; SaveConfig mixedBatchFixed] |}.
Proof.
  rewrite (validator_batch_outcome plainRuntime emptyConfig mixedBatch) by reflexivity.
  vm_compute. reflexivity.
Defined.

(** [completed_fix_repairs] on [mixedBatch]. *)
Lemma completed_fix_repairs_witness :
  repaired key_zBabystepGCode mixedBatchFixed = true.
Proof.
  apply (completed_fix_repairs plainRuntime emptyConfig mixedBatch false).
  - vm_compute. reflexivity.
  - apply list_elem_of_In. cbn. tauto.
Defined.

(** [batch_order_irrelevant] on [mixedBatch] and its reverse. *)
Lemma batch_order_irrelevant_witness :
  fixUpdateErrors plainRuntime emptyConfig mixedBatch
  = fixUpdateErrors plainRuntime emptyConfig (rev mixedBatch).
Proof.
  apply batch_order_irrelevant; [reflexivity|apply Permutation_rev].
Defined.

(** [completed_fix_touches_only] on [usedConfig] and all four keys: the
    printer's name is as it was. *)
Lemma completed_fix_touches_only_witness :
  readPath ["printer"; "name"] usedConfigFixed
  = readPath ["printer"; "name"] usedConfig.
Proof.
  apply (completed_fix_touches_only plainRuntime usedConfig (keys updateError) true).
  - vm_compute. reflexivity.
  - reflexivity.
Defined.

(** [nothing_known_saves_unchanged] on [unknownBatch]. *)
Lemma nothing_known_saves_unchanged_witness :
  fixUpdateErrors plainRuntime emptyConfig unknownBatch
  = {| completion := Normal false;
       storeCalls := [GetCurrentConfig; SaveConfig emptyConfig] |}.
Proof.
  apply (nothing_known_saves_unchanged plainRuntime emptyConfig unknownBatch);
    reflexivity.
Defined.

(** [turnOnPrinter_patch_migrates] on [psuOnConfig]. *)
Lemma turnOnPrinter_patch_migrates_witness :
  exists source,
    readPath path_turnOnPSU psuOnConfig = Normal source
    /\ readPath path_turnOnPrinter psuOnFixed
       = Normal (nullish source (JsBoolean false))
    /\ readPath path_turnOnPSU psuOnFixed = Normal JsUndefined.
Proof.
  apply (turnOnPrinter_patch_migrates psuOnConfig psuOnFixed).
  vm_compute. reflexivity.
Defined.

(** [getters_follow_history] after [busySession]. *)
Lemma getters_follow_history_witness :
  getVersion (svc (after busySession)) = lastAnnounced busySession None
  /\ getLatestVersion (svc (after busySession))
     = (fun data => replace "v" "" (name data)) <$> lastRelease busySession None
  /\ getLatestVersionAssetsURL (svc (after busySession))
     = assets_url <$> lastRelease busySession None
  /\ getLoadedFile (svc (after busySession)) = lastLoadedFile busySession false.
Proof.
  apply (getters_follow_history plainRuntime 0 busySession).
  vm_compute. reflexivity.
Defined.

(** [quiet_before_announcement] after [beforeAnnouncement]. *)
Lemma quiet_before_announcement_witness :
  requests (after beforeAnnouncement) = 0%nat
  /\ timers (after beforeAnnouncement) = []
  /\ latestVersion (svc (after beforeAnnouncement)) = None
  /\ latestVersionAssetsURL (svc (after beforeAnnouncement)) = None
  /\ updateAvailable (svc (after beforeAnnouncement)) = false.
Proof.
  apply (quiet_before_announcement plainRuntime 0 beforeAnnouncement);
    vm_compute; reflexivity.
Defined.

(** [one_loop_per_announcement] after [busySession]. *)
Lemma one_loop_per_announcement_witness :
  length (timers (after busySession)) = announcements busySession.
Proof.
  apply (one_loop_per_announcement plainRuntime 0 busySession).
  vm_compute. reflexivity.
Defined.

(** [release_fields_coherent] after [busySession]. *)
Lemma release_fields_coherent_witness :
  (latestVersion (svc (after busySession)) = None
   <-> latestVersionAssetsURL (svc (after busySession)) = None)
  /\ (updateAvailable (svc (after busySession)) = true ->
      latestVersion (svc (after busySession)) <> None).
Proof.
  apply (release_fields_coherent plainRuntime 0 busySession).
  vm_compute. reflexivity.
Defined.

(** [custom_css_listener_logs] after [busySession]. *)
Lemma custom_css_listener_logs_witness :
  notifications (after busySession)
  = map (fun e => ("Can't load custom styles!", e)) (customStylesErrors busySession)
  /\ styles (after busySession) = customStyles busySession.
Proof.
  apply (custom_css_listener_logs plainRuntime 0 busySession).
  vm_compute. reflexivity.
Defined.

(** [ipc_commands_sent] after [busySession]. *)
Lemma ipc_commands_sent_witness :
  ipcSent (after busySession) = "appInfo" :: displayCommands busySession.
Proof.
  apply (ipc_commands_sent plainRuntime 0 busySession).
  vm_compute. reflexivity.
Defined.

(** [store_reads_and_saves] after [busySession]. *)
Lemma store_reads_and_saves_witness :
  gets (store (after busySession)) = fixCalls busySession
  /\ (saves (store (after busySession)) <= fixCalls busySession)%nat.
Proof.
  apply (store_reads_and_saves plainRuntime 0 busySession).
  vm_compute. reflexivity.
Defined.

(** [timers_in_due_order] after [busySession]. *)
Lemma timers_in_due_order_witness :
  ascending (timers (after busySession))
  /\ Forall (fun due => due <= clock (after busySession) + 3600000)
            (timers (after busySession)).
Proof.
  apply (timers_in_due_order plainRuntime 0 busySession).
  vm_compute. reflexivity.
Defined.

(** [one_poll_per_hour] after [busySession]: three polls, two hours. *)
Lemma one_poll_per_hour_witness :
  (Z.of_nat (polls busySession) - 1) * 3600000 <= clock (after busySession) - 0.
Proof.
  apply (one_poll_per_hour plainRuntime 0 busySession).
  - vm_compute. reflexivity.
  - vm_compute. lia.
Defined.

(** [date_string_round_trip] on [newYearsEve]. *)
Lemma date_string_round_trip_witness :
  parseDateString (convertDateToString (ValidDate newYearsEve)) = Some newYearsEve.
Proof.
  apply (date_string_round_trip newYearsEve). unfold inRange. cbn. lia.
Defined.

(** [date_string_width] on [newYearsEve]. *)
Lemma date_string_width_witness :
  String.length (convertDateToString (ValidDate newYearsEve))
  = (15 + String.length (numberToString (Some (fullYear newYearsEve))))%nat
  /\ (1000 <= fullYear newYearsEve <= 9999 ->
      String.length (convertDateToString (ValidDate newYearsEve)) = 19%nat).
Proof.
  apply (date_string_width newYearsEve). unfold inRange. cbn. lia.
Defined.
